(** * CLEAR hospital price finder: geospatial search and chargemaster query engine

    Shallow embedding of [docs/js/hospital-price-finder.js]: the price
    utilities ([amountOf], [formatPrice], [getCodeField],
    [getSearchCodeField], [generatePriceTable]), the chargemaster cache
    ([loadHospitalJSON]), the per-hospital query ([queryHospitalJSON]), the
    payer aggregation ([getUniquePayers]) and the synchronous head of the
    main search ([go]).

    JavaScript values are embedded as an inductive type with the language's
    coercions written out.  A number is a NaN, an infinity or a finite value
    carried as an exact rational (the value an IEEE double denotes; rounding
    of arithmetic results is left to the host, see [Host]).  Strings are
    byte strings: on ASCII text they coincide with JavaScript's. *)

From Stdlib Require Import QArith Qabs Lia Lqa Ascii String List Sorting.Sorted Sorting.Permutation.
From stdpp Require Import base option list strings pretty gmap.

Local Open Scope string_scope.
Local Open Scope list_scope.

(** ** Numbers *)

Inductive number : Type :=
  | NaN
  | NegInfinity
  | Finite (q : Q)
  | PosInfinity.

Definition Nzero : number := Finite 0.

(** [ToBoolean] on a number: NaN and (either) zero are falsy. *)
Definition Ntruthy (n : number) : bool :=
  match n with
  | NaN => false
  | Finite q => negb (Qeq_bool q 0)
  | NegInfinity | PosInfinity => true
  end.

(** [a <= b]; any comparison with NaN is false. *)
Definition Nle (a b : number) : bool :=
  match a, b with
  | NaN, _ | _, NaN => false
  | NegInfinity, _ => true
  | _, PosInfinity => true
  | Finite x, Finite y => Qle_bool x y
  | _, _ => false
  end.

(** [a < b]. *)
Definition Nlt (a b : number) : bool :=
  match a, b with
  | NaN, _ | _, NaN => false
  | NegInfinity, NegInfinity => false
  | NegInfinity, _ => true
  | PosInfinity, _ => false
  | Finite x, Finite y => Qle_bool x y && negb (Qeq_bool x y)
  | Finite _, PosInfinity => true
  | Finite _, NegInfinity => false
  end.

Definition Nge (a b : number) : bool := Nle b a.
Definition Ngt (a b : number) : bool := Nlt b a.

(** [a - b].  On finite operands the exact difference is taken; the only
    consumer is the sort comparator, which looks at the sign, and the sign of
    a rounded difference of two doubles is the sign of the exact one. *)
Definition Nsub (a b : number) : number :=
  match a, b with
  | NaN, _ | _, NaN => NaN
  | PosInfinity, PosInfinity => NaN
  | NegInfinity, NegInfinity => NaN
  | PosInfinity, _ => PosInfinity
  | NegInfinity, _ => NegInfinity
  | Finite _, PosInfinity => NegInfinity
  | Finite _, NegInfinity => PosInfinity
  | Finite x, Finite y => Finite (x - y)
  end.

(** [x || y] on numbers. *)
Definition Nor (x y : number) : number := if Ntruthy x then x else y.

Definition Nfinite (n : number) : bool :=
  match n with Finite _ => true | _ => false end.

(** ** Values *)

(** A value read from a parsed record, a CSV row or a form control.  Arrays
    and objects only ever meet coercions here, so they are carried with the
    string [ToPrimitive] gives for them. *)
Inductive value : Type :=
  | Undefined
  | Null
  | Bool (b : bool)
  | Num (n : number)
  | Str (s : string)
  | Obj (repr : string).

(** [ToBoolean]. *)
Definition truthy (v : value) : bool :=
  match v with
  | Undefined | Null => false
  | Bool b => b
  | Num n => Ntruthy n
  | Str s => negb (String.eqb s "")
  | Obj _ => true
  end.

(** [a || b] on values. *)
Definition vor (a b : value) : value := if truthy a then a else b.

(** [v != null] (loose comparison: false exactly for null and undefined). *)
Definition not_nullish (v : value) : bool :=
  match v with Undefined | Null => false | _ => true end.

(** A parsed JSON line, seen through its named properties; a property that
    is not there reads as [Undefined]. *)
Abbreviation record := (gmap string value).

Definition get (r : record) (field : string) : value :=
  default Undefined (r !! field).

(** ** The host

    What the page takes from the JavaScript engine and from d3: the
    numeric grammar of strings, number formatting, floating-point
    multiplication and division, regular expressions, [JSON.parse] and
    [d3.geoDistance].  The program is embedded over any host. *)
Class Host : Type := {
  (** [ToNumber] applied to a string. *)
  StringToNumber : string -> number;
  (** [parseFloat] applied to a string. *)
  StringParseFloat : string -> number;
  (** [Number.prototype.toString]. *)
  NumberToString : number -> string;
  (** [Number.prototype.toLocaleString()]. *)
  toLocaleString : number -> string;
  (** [Number.prototype.toFixed(digits)]. *)
  toFixed : number -> nat -> string;
  Ndiv : number -> number -> number;
  Nmul : number -> number -> number;
  RegExp : Type;
  (** [new RegExp(pattern, 'i')]; [None] when it throws a SyntaxError. *)
  RegExp_new : string -> option RegExp;
  (** [regex.test(string)] (no [g] flag: the test carries no state). *)
  RegExp_test : RegExp -> string -> bool;
  (** [regex.source]. *)
  RegExp_source : RegExp -> string;
  (** [JSON.parse(line)]: [None] when it throws, [Some None] for [null],
      [Some (Some r)] for any other value, seen through its properties. *)
  JSON_parse : string -> option (option record);
  (** [d3.geoDistance(a, b)], in radians, on [lon, lat] pairs. *)
  geoDistance : value * value -> value * value -> number;
  (** The overlay of the radius mode of [go]: the polygon
      [d3.geoCircle().center(c).radius(deg)()] handed to the path generator
      ([circlePath.datum(circle).attr("d", path)]) and to [zoomTo].  [true]
      when d3 returns from these calls, [false] when it throws, as it does
      on a circle without points (a radius that is NaN or -Infinity). *)
  geoCircle_drawn : value * value -> number -> bool
}.

(** ** String helpers (the [String.prototype] methods the page calls)

    White space is the ASCII white space and line terminators. *)

Definition is_whitespace (c : ascii) : bool :=
  let n := nat_of_ascii c in
  (Nat.eqb n 32 || (Nat.leb 9 n && Nat.leb n 13))%bool.

Fixpoint trimStart_list (l : list ascii) : list ascii :=
  match l with
  | [] => []
  | c :: l' => if is_whitespace c then trimStart_list l' else l
  end.

Definition trim_list (l : list ascii) : list ascii :=
  rev (trimStart_list (rev (trimStart_list l))).

(** [s.trim()]. *)
Definition trim (s : string) : string :=
  string_of_list_ascii (trim_list (list_ascii_of_string s)).

(** [s.padStart(n, c)] for a one-character filler. *)
Definition padStart_list (n : nat) (c : ascii) (l : list ascii) : list ascii :=
  repeat c (n - length l) ++ l.

Definition padStart (n : nat) (c : ascii) (s : string) : string :=
  string_of_list_ascii (padStart_list n c (list_ascii_of_string s)).

(** [s.slice(-n)]: the last [n] characters, the whole string when shorter. *)
Definition slice_last_list (n : nat) (l : list ascii) : list ascii :=
  skipn (length l - n) l.

Definition slice_last (n : nat) (s : string) : string :=
  string_of_list_ascii (slice_last_list n (list_ascii_of_string s)).

(** [s.substring(n)]. *)
Definition substring_from (n : nat) (s : string) : string :=
  string_of_list_ascii (skipn n (list_ascii_of_string s)).

(** [s.split('\n')]: always at least one piece. *)
Fixpoint split_newline (cur : list ascii) (l : list ascii) : list string :=
  match l with
  | [] => [string_of_list_ascii (rev cur)]
  | c :: l' =>
      if Nat.eqb (nat_of_ascii c) 10
      then string_of_list_ascii (rev cur) :: split_newline [] l'
      else split_newline (c :: cur) l'
  end.

Definition split_lines (s : string) : list string :=
  split_newline [] (list_ascii_of_string s).

(** ** The program *)

(** [const jsonUrl = (relPath) => relPath.startsWith('docs/') ? relPath.substring(5) : relPath]. *)
Definition jsonUrl (relPath : string) : string :=
  if String.prefix "docs/" relPath then substring_from 5 relPath else relPath.

(** [const EARTH_MI = 3958.7613]. *)
Definition EARTH_MI : number := Finite (39587613 # 10000).

(** The page's global tables and controls that the price utilities read. *)
Record app : Type := {
  (** [let currentConfigType = 'service'], later [$configType.value]. *)
  currentConfigType : string;
  (** [const cmsRate = new Map()]: procedure code to Medicare rate. *)
  cmsRate : gmap string number;
  (** [$unit.checked]. *)
  unit_checked : bool
}.

(** [{ price, ratio }] as [formatPrice] returns it. *)
Record formatted : Type := { price : string; ratio : string }.

(** One entry of [priceTypes] in [generatePriceTable]. *)
Record price_row : Type := {
  row_type : string;
  row_price : string;
  row_ratio : string
}.

(** What [generatePriceTable] renders: the no-data notice, or the table with
    one line per entry of [priceTypes], the ratio cell present only when
    [showRatio]. *)
Inductive price_table : Type :=
  | NoPricingData
  | PriceTable (showRatio : bool) (rows : list (string * string * option string)).

Section Program.
Context `{H : Host}.

(** [ToNumber] (unary [+], [Number(v)]). *)
Definition ToNumber (v : value) : number :=
  match v with
  | Undefined => NaN
  | Null => Finite 0
  | Bool b => if b then Finite 1 else Finite 0
  | Num n => n
  | Str s => StringToNumber s
  | Obj repr => StringToNumber repr
  end.

(** [ToString] ([String(v)], and the coercion [regex.test] applies). *)
Definition ToString (v : value) : string :=
  match v with
  | Undefined => "undefined"
  | Null => "null"
  | Bool b => if b then "true" else "false"
  | Num n => NumberToString n
  | Str s => s
  | Obj repr => repr
  end.

(** [parseFloat(v)]: the argument is converted to a string first. *)
Definition parseFloat (v : value) : number := StringParseFloat (ToString v).

(** The global [isFinite(v)]: the argument is converted to a number first. *)
Definition isFinite (v : value) : bool := Nfinite (ToNumber v).

(** [const gcMiles = (aLonLat, bLonLat) => d3.geoDistance(aLonLat, bLonLat) * EARTH_MI]. *)
Definition gcMiles (aLonLat bLonLat : value * value) : number :=
  Nmul (geoDistance aLonLat bLonLat) EARTH_MI.

(** [const miles2deg = (mi) => mi/69]. *)
Definition miles2deg (mi : number) : number := Ndiv mi (Finite 69).

(** [const amountOf = r => +r.estimated_amount || +r.standard_charge_dollar
      || +r.standard_charge_gross || +r.standard_charge_min
      || +r.standard_charge_max || 0]. *)
Definition amountOf (r : record) : number :=
  Nor (Nor (Nor (Nor (Nor (ToNumber (get r "estimated_amount"))
                          (ToNumber (get r "standard_charge_dollar")))
                     (ToNumber (get r "standard_charge_gross")))
                (ToNumber (get r "standard_charge_min")))
           (ToNumber (get r "standard_charge_max")))
      Nzero.

(** [amount === 0]. *)
Definition strict_zero (amount : value) : bool :=
  match amount with
  | Num (Finite q) => Qeq_bool q 0
  | _ => false
  end.

(** [formatPrice(amount, code)]. *)
Definition formatPrice (a : app) (amount code : value) : formatted :=
  if negb (truthy amount) || strict_zero amount
  then {| price := "N/A"; ratio := "N/A" |}
  else
    let price := "$" +:+ toLocaleString (ToNumber amount) in
    let ratio :=
      if truthy code then
        let medicareRate :=
          match cmsRate a !! ToString code with
          | Some rate => Nor rate Nzero
          | None => Nzero
          end in
        if Ngt medicareRate Nzero
        then toFixed (Ndiv (ToNumber amount) medicareRate) 2 +:+ "x"
        else "N/A"
      else "N/A" in
    {| price := price; ratio := ratio |}.

(** [getCodeField(record)]: always the [code] property. *)
Definition getCodeField (r : record) : value := vor (get r "code") (Str "").

(** [getSearchCodeField()]: the property the pattern is tested against. *)
Definition getSearchCodeField (a : app) : string :=
  if String.eqb (currentConfigType a) "service" then "code" else "rc_code".

(** The [priceTypes] array built by [generatePriceTable]. *)
Definition priceTypes (a : app) (r : record) : list price_row :=
  let code := getCodeField r in
  let entry (type field : string) : list price_row :=
    if not_nullish (get r field)
    then let f := formatPrice a (get r field) code in
         [ {| row_type := type; row_price := price f; row_ratio := ratio f |} ]
    else [] in
  entry "Estimate" "estimated_amount"
    ++ entry "Minimum" "standard_charge_min"
    ++ entry "Maximum" "standard_charge_max".

(** [generatePriceTable(record)]. *)
Definition generatePriceTable (a : app) (r : record) : price_table :=
  let showRatio := unit_checked a in
  match priceTypes a r with
  | [] => NoPricingData
  | rows =>
      PriceTable showRatio
        (map (fun pt => (row_type pt, row_price pt,
                         if showRatio then Some (row_ratio pt) else None)) rows)
  end.

(** *** Chargemaster cache *)

(** What [fetch(url)] followed by [response.text()] comes to: a rejection
    (network failure), or a response with its [ok] flag and body. *)
Inductive response : Type :=
  | NetworkError
  | HttpResponse (ok : bool) (text : string).

(** The session: [const jsonCache = new Map()], with two instrumentation
    logs that the page itself does not keep: the paths for which a fetch was
    issued and the paths whose body was parsed, oldest first. *)
Record session : Type := {
  jsonCache : gmap string (list record);
  fetchLog : list string;
  parseLog : list string
}.

Definition empty_session : session :=
  {| jsonCache := ∅; fetchLog := []; parseLog := [] |}.

(** One line of the file: [JSON.parse(line)], [null] when it throws. *)
Definition parse_line (line : string) : option record :=
  match JSON_parse line with
  | Some (Some obj) => Some obj
  | Some None => None
  | None => None
  end.

(** [text.trim().split('\n').map(...).filter(obj => obj !== null)]. *)
Definition parse_json_lines (text : string) : list record :=
  omap parse_line (split_lines (trim text)).

(** [loadHospitalJSON] suspends at the fetch and at the reading of the
    body; it neither reads nor writes the session between the two, so they
    are taken as one suspension.  [load_start] is the part that runs when
    the function is called: it ends with the value the call settles to, or
    with the fetch it has issued. *)
Inductive load_status : Type :=
  | Settled (jsonData : list record)
  | Awaiting (jsonPath : string) (fetchIndex : nat).

Definition load_start (s : session) (jsonPath : option string)
  : session * load_status :=
  match jsonPath with
  | None => (s, Settled [])
  | Some p =>
      if String.eqb p "" then (s, Settled [])
      else match jsonCache s !! p with
           | Some jsonData => (s, Settled jsonData)
           | None =>
               ({| jsonCache := jsonCache s;
                   fetchLog := fetchLog s ++ [p];
                   parseLog := parseLog s |},
                Awaiting p (length (fetchLog s)))
           end
  end.

(** [load_finish] is the part that runs when the response is there. *)
Definition load_finish (s : session) (jsonPath : string) (resp : response)
  : session * list record :=
  match resp with
  | HttpResponse true text =>
      let jsonData := parse_json_lines text in
      ({| jsonCache := <[jsonPath := jsonData]> (jsonCache s);
          fetchLog := fetchLog s;
          parseLog := parseLog s ++ [jsonPath] |},
       jsonData)
  | HttpResponse false _ => (s, [])
  | NetworkError => (s, [])
  end.

(** The network: the response to the [n]-th fetch of the session, by URL. *)
Definition network : Type := nat -> string -> response.

(** [loadHospitalJSON(jsonPath)] when nothing else runs between its call
    and its return. *)
Definition loadHospitalJSON (net : network) (s : session)
    (jsonPath : option string) : session * list record :=
  match load_start s jsonPath with
  | (s', Settled jsonData) => (s', jsonData)
  | (s', Awaiting p n) => load_finish s' p (net n (jsonUrl p))
  end.

(** Calls that overlap: a call is started, and a started call that waits
    for its response is resumed with it. *)
Inductive event : Type :=
  | Call (jsonPath : option string)
  | Respond (jsonPath : string) (resp : response).

(** The session together with the calls in flight and the values returned
    so far, in the order the calls settled. *)
Record tasks : Type := {
  sess : session;
  inflight : list string;
  returned : list (list record)
}.

Fixpoint remove_first (p : string) (l : list string) : option (list string) :=
  match l with
  | [] => None
  | x :: l' =>
      if String.eqb x p then Some l'
      else match remove_first p l' with
           | Some r => Some (x :: r)
           | None => None
           end
  end.

(** One event; [None] when a response is delivered to a call that is not
    waiting. *)
Definition step (t : tasks) (e : event) : option tasks :=
  match e with
  | Call jsonPath =>
      match load_start (sess t) jsonPath with
      | (s', Settled jsonData) =>
          Some {| sess := s'; inflight := inflight t;
                  returned := returned t ++ [jsonData] |}
      | (s', Awaiting p _) =>
          Some {| sess := s'; inflight := inflight t ++ [p];
                  returned := returned t |}
      end
  | Respond p resp =>
      match remove_first p (inflight t) with
      | Some rest =>
          let '(s', jsonData) := load_finish (sess t) p resp in
          Some {| sess := s'; inflight := rest;
                  returned := returned t ++ [jsonData] |}
      | None => None
      end
  end.

Fixpoint run (t : tasks) (es : list event) : option tasks :=
  match es with
  | [] => Some t
  | e :: es' =>
      match step t e with
      | Some t' => run t' es'
      | None => None
      end
  end.

Definition idle (s : session) : tasks :=
  {| sess := s; inflight := []; returned := [] |}.

(** Calls made one after the other, each returning before the next. *)
Fixpoint load_each (net : network) (s : session) (paths : list (option string))
  : session * list (list record) :=
  match paths with
  | [] => (s, [])
  | p :: paths' =>
      let '(s1, jsonData) := loadHospitalJSON net s p in
      let '(s2, rest) := load_each net s1 paths' in
      (s2, jsonData :: rest)
  end.

(** *** Query *)

(** [Array.prototype.sort(comparefn)]: a stable sort (ECMAScript 2019),
    which for a consistent comparator fixes the result; written here as an
    insertion from the right.  A comparator result that is NaN counts as 0. *)
Fixpoint sort_insert {A : Type} (comparefn : A -> A -> number) (x : A)
    (l : list A) : list A :=
  match l with
  | [] => [x]
  | y :: l' =>
      if Ngt (comparefn x y) Nzero then y :: sort_insert comparefn x l'
      else x :: l
  end.

Definition Array_sort {A : Type} (comparefn : A -> A -> number) (l : list A)
  : list A :=
  foldr (sort_insert comparefn) [] l.

(** [!selectedPayer], for a payer that is a string or [null]. *)
Definition no_payer (selectedPayer : option string) : bool :=
  match selectedPayer with
  | None => true
  | Some p => String.eqb p ""
  end.

(** [v === selectedPayer]. *)
Definition strict_equal_payer (v : value) (selectedPayer : option string)
  : bool :=
  match v, selectedPayer with
  | Str s, Some p => String.eqb s p
  | Null, None => true
  | _, _ => false
  end.

(** [matchesPayer] in the filter callback of [queryHospitalJSON]. *)
Definition matchesPayer (selectedPayer : option string) (r : record) : bool :=
  no_payer selectedPayer
  || (truthy (get r "payer_name")
      && strict_equal_payer (get r "payer_name") selectedPayer).

(** [matchesRegex] in the same callback. *)
Definition matchesRegex (regex : RegExp) (codeField : string) (r : record)
  : bool :=
  let description := vor (get r "description") (Str "") in
  let code := vor (get r codeField) (Str "") in
  RegExp_test regex (ToString description) || RegExp_test regex (ToString code).

(** The sort key: [parseFloat(a.estimated_amount) || 0]. *)
Definition estimated_key (r : record) : number :=
  Nor (parseFloat (get r "estimated_amount")) Nzero.

(** The comparator: [aAmount - bAmount]. *)
Definition by_estimated_amount (x y : record) : number :=
  Nsub (estimated_key x) (estimated_key y).

(** The matches before the cut: the filter of [queryHospitalJSON]. *)
Definition all_matches (a : app) (regex : RegExp)
    (selectedPayer : option string) (jsonData : list record) : list record :=
  let codeField := getSearchCodeField a in
  List.filter
    (fun r => matchesRegex regex codeField r && matchesPayer selectedPayer r)
    jsonData.

(** What [queryHospitalJSON] does once the data is there: compile, filter,
    [slice(0, 50)], sort.  A pattern that does not compile throws inside the
    [try], and the [catch] returns the empty array. *)
Definition query_loaded (a : app) (jsonData : list record)
    (regexOrCode : string) (selectedPayer : option string) : list record :=
  match RegExp_new regexOrCode with
  | None => []
  | Some regex =>
      let matches := firstn 50 (all_matches a regex selectedPayer jsonData) in
      Array_sort by_estimated_amount matches
  end.

(** [!jsonPath], for a path that is a string or missing. *)
Definition no_path (jsonPath : option string) : bool :=
  match jsonPath with
  | None => true
  | Some p => String.eqb p ""
  end.

(** [queryHospitalJSON(jsonPath, regexOrCode, selectedPayer)], when nothing
    else runs between its call and its return. *)
Definition queryHospitalJSON (a : app) (net : network) (s : session)
    (jsonPath : option string) (regexOrCode : string)
    (selectedPayer : option string) : session * list record :=
  if no_path jsonPath || String.eqb regexOrCode "" then (s, [])
  else
    let '(s', jsonData) := loadHospitalJSON net s jsonPath in
    (s', query_loaded a jsonData regexOrCode selectedPayer).

(** *** Payers *)

(** A row of [hospitals.csv] after [loadHospitalData] ([hospital_id] is its
    [id] column); [json_path] has been defaulted to the empty string there
    and [ll] set to [[lon, lat]]. *)
Record hospital : Type := {
  hospital_id : value;
  lat : value;
  lon : value;
  json_path : string
}.

Definition ll (h : hospital) : value * value := (lon h, lat h).

(** The [forEach] of [getUniquePayers] over one file.  [trim] is called on
    every truthy [payer_name]; on one that is not a string the call throws,
    the [catch] around the loop logs it and the rest of the file is skipped. *)
Fixpoint collect_payers (payerSet : gset string) (jsonData : list record)
  : gset string :=
  match jsonData with
  | [] => payerSet
  | r :: rest =>
      match get r "payer_name" with
      | Str s =>
          if negb (String.eqb s "") && negb (String.eqb (trim s) "")
          then collect_payers ({[ trim s ]} ∪ payerSet) rest
          else collect_payers payerSet rest
      | v => if truthy v then payerSet else collect_payers payerSet rest
      end
  end.

(** The calls of [hospitalList.map(async ...)]: every callback runs up to
    its fetch before any response is looked at. *)
Fixpoint start_loads (s : session) (hospitalList : list hospital)
  : session * list load_status :=
  match hospitalList with
  | [] => (s, [])
  | h :: rest =>
      if String.eqb (json_path h) "" then start_loads s rest
      else
        let '(s1, st) := load_start s (Some (json_path h)) in
        let '(s2, sts) := start_loads s1 rest in
        (s2, st :: sts)
  end.

(** The callbacks resumed, here in the order their fetches were issued. *)
Fixpoint finish_loads (net : network) (s : session) (sts : list load_status)
  : session * list (list record) :=
  match sts with
  | [] => (s, [])
  | Settled jsonData :: rest =>
      let '(s', datas) := finish_loads net s rest in
      (s', jsonData :: datas)
  | Awaiting p n :: rest =>
      let '(s1, jsonData) := load_finish s p (net n (jsonUrl p)) in
      let '(s2, datas) := finish_loads net s1 rest in
      (s2, jsonData :: datas)
  end.

(** Insertion into a list sorted by [String.leb]: the default order of
    [Array.prototype.sort] on strings. *)
Fixpoint insert_sorted (x : string) (l : list string) : list string :=
  match l with
  | [] => [x]
  | y :: l' => if String.leb x y then x :: l else y :: insert_sorted x l'
  end.

(** [getUniquePayers(hospitalList)]: the sorted array of distinct payers. *)
Definition getUniquePayers (net : network) (s : session)
    (hospitalList : list hospital) : session * list string :=
  let '(s1, sts) := start_loads s hospitalList in
  let '(s2, datas) := finish_loads net s1 sts in
  let payerSet := foldl collect_payers ∅ datas in
  (s2, foldr insert_sorted [] (elements payerSet)).

(** *** Main search *)

(** The form controls [go] reads. *)
Record controls : Type := {
  zip_value : string;      (** [$zip.value] *)
  radius_value : string;   (** [$radius.value] *)
  service_value : string;  (** [$service.value] *)
  q_value : string;        (** [$q.value] *)
  payer_value : string     (** [$payer.value] *)
}.

(** The tables [initializeApp] has filled in. *)
Record tables : Type := {
  ZIP : gmap string (value * value);   (** zip to [[lat, lon]] *)
  hospitals : list hospital;
  services : gmap string RegExp;
  revenueCodes : gmap string RegExp
}.

(** The local bindings at the head of [go], under the names they have
    there, prefixed. *)

(** [const rawZip = ($zip.value||"").trim()]. *)
Definition go_rawZip (c : controls) : string := trim (zip_value c).

(** [const zip = rawZip.padStart(5,'0').slice(-5)]. *)
Definition go_zip (c : controls) : string :=
  slice_last 5 (padStart 5 "0"%char (go_rawZip c)).

(** [const miles = +$radius.value]. *)
Definition go_miles (c : controls) : number := StringToNumber (radius_value c).

(** [const selectedPayer = $payer.value || null]. *)
Definition go_selectedPayer (c : controls) : option string :=
  if String.eqb (payer_value c) "" then None else Some (payer_value c).

(** [searchPattern]: the source of the configured expression, or the
    trimmed custom query, or the empty string. *)
Definition go_searchPattern (a : app) (t : tables) (c : controls) : string :=
  let svcName := service_value c in
  let q := trim (q_value c) in
  let configMap :=
    if String.eqb (currentConfigType a) "service"
    then services t else revenueCodes t in
  match configMap !! svcName with
  | Some svcRegex =>
      if negb (String.eqb svcName "") && negb (String.eqb svcName "custom")
      then RegExp_source svcRegex
      else if String.eqb svcName "custom" && negb (String.eqb q "")
           then q else ""
  | None =>
      if String.eqb svcName "custom" && negb (String.eqb q "")
      then q else ""
  end.

(** [nearby]: the radius filter, in its two modes.  From 500 miles on
    nothing is drawn but the marker of the ZIP.  Below, the circle of the
    radius is built, drawn and zoomed to before the hospitals are filtered;
    an exception of d3 there leaves [go] before [nearby] is assigned
    ([None]). *)
Definition go_nearby (hs : list hospital) (center : value * value)
    (miles : number) : option (list hospital) :=
  if Nge miles (Finite 500)
  then Some (List.filter (fun h => isFinite (lon h) && isFinite (lat h)) hs)
  else if geoCircle_drawn center (miles2deg miles)
       then Some (List.filter
                    (fun h => isFinite (lon h) && isFinite (lat h)
                              && Nle (gcMiles center (ll h)) miles) hs)
       else None.

(** How the synchronous head of [go] ends: with a status message and no
    search, with an exception thrown while the circle is drawn (the promise
    of [go] is rejected), or with the centre, the candidate hospitals and
    the search parameters handed to the asynchronous part. *)
Inductive go_head : Type :=
  | Abort (status : string)
  | Throw
  | Proceed (center : value * value) (nearby : list hospital)
            (searchPattern : string) (selectedPayer : option string).

(** [go()] up to its first [await]. *)
Definition go (a : app) (t : tables) (c : controls) : go_head :=
  let zip := go_zip c in
  let miles := go_miles c in
  match ZIP t !! zip with
  | None => Abort ("ZIP " +:+ zip +:+ " not found.")
  | Some (lat, lon) =>
      match hospitals t with
      | [] => Abort "No hospitals index loaded."
      | _ =>
          let center := (lon, lat) in
          match go_nearby (hospitals t) center miles with
          | None => Throw
          | Some nearby =>
              Proceed center nearby
                      (go_searchPattern a t c) (go_selectedPayer c)
          end
      end
  end.

(** The hits of one hospital in [worker]:
    [(ENABLE_PRICES && searchPattern && h.json_path)
       ? await queryHospitalJSON(h.json_path, searchPattern, selectedPayer) : []]
    with [ENABLE_PRICES = true]. *)
Definition worker_hits (a : app) (net : network) (s : session)
    (searchPattern : string) (selectedPayer : option string) (h : hospital)
  : session * list record :=
  if negb (String.eqb searchPattern "") && negb (String.eqb (json_path h) "")
  then queryHospitalJSON a net s (Some (json_path h)) searchPattern selectedPayer
  else (s, []).

(** *** Tables loaded at start-up *)

(** [loadZipData()], on what [d3.csv(DATA_ZIPS, d3.autoType)] gives: the
    rows, or [None] when the request fails (the [catch] returns an empty
    map).  [new Map(pairs)] lets a later pair replace an earlier one with
    the same key. *)
Definition loadZipData (zipRows : option (list record))
  : gmap string (value * value) :=
  match zipRows with
  | None => ∅
  | Some rows =>
      foldl (fun m d =>
               <[padStart 5 "0"%char (ToString (get d "zip"))
                 := (get d "lat", get d "lon")]> m)
            ∅ rows
  end.

(** [loadMedicareRates()], on the rows of [medicare_pricing_matched.csv]:
    [rateMap.set(String(r.code), +r.price || 0)]. *)
Definition loadMedicareRates (cmsRows : option (list record))
  : gmap string number :=
  match cmsRows with
  | None => ∅
  | Some rows =>
      foldl (fun rateMap r =>
               <[ToString (get r "code")
                 := Nor (ToNumber (get r "price")) Nzero]> rateMap)
            ∅ rows
  end.

(** The pattern text [new RegExp(pattern, 'i')] compiles: the empty pattern
    for [undefined], the string conversion of anything else. *)
Definition pattern_text (pattern : value) : string :=
  match pattern with
  | Undefined => ""
  | _ => ToString pattern
  end.

(** The [forEach] over [Object.entries(svcCfg)].  An entry whose value is
    [null] ([None] here) throws on [obj.pattern], and a pattern that does not
    compile throws in [new RegExp]: either ends the loop with an exception. *)
Fixpoint config_entries (serviceMap : gmap string RegExp)
    (entries : list (string * option record)) : option (gmap string RegExp) :=
  match entries with
  | [] => Some serviceMap
  | (name, obj) :: rest =>
      match obj with
      | None => None
      | Some o =>
          match RegExp_new (pattern_text (get o "pattern")) with
          | None => None
          | Some regex => config_entries (<[name := regex]> serviceMap) rest
          end
      end
  end.

(** [loadServiceConfig()], on the entries of the fetched object, [None] when
    the fetch or its [json()] fails; any exception gives the empty map. *)
Definition loadServiceConfig (svcCfg : option (list (string * option record)))
  : gmap string RegExp :=
  match svcCfg with
  | None => ∅
  | Some entries => default ∅ (config_entries ∅ entries)
  end.

(** [loadRevenueCodeConfig()]: the same code over [rc_config.json]. *)
Definition loadRevenueCodeConfig
    (rcCfg : option (list (string * option record))) : gmap string RegExp :=
  match rcCfg with
  | None => ∅
  | Some entries => default ∅ (config_entries ∅ entries)
  end.

(** *** Form handlers *)



(** *** Charts and cards *)

(** The values one hit contributes to [prices] in
    [createDistributionChart]. *)
Definition hit_prices (hit : record) : list number :=
  (if not_nullish (get hit "estimated_amount")
   then [ToNumber (get hit "estimated_amount")] else [])
  ++ (if not_nullish (get hit "standard_charge_min")
      then [ToNumber (get hit "standard_charge_min")] else [])
  ++ (if not_nullish (get hit "standard_charge_max")
      then [ToNumber (get hit "standard_charge_max")] else []).

(** What [createDistributionChart] draws: one of its two notices, or the
    histogram of [prices] (the binning is d3's). *)
Inductive distribution_chart : Type :=
  | NoDataToDisplay
  | NoPriceDataAvailable
  | Histogram (prices : list number).

(** [createDistributionChart(allHits)]. *)
Definition createDistributionChart (allHits : list record)
  : distribution_chart :=
  match allHits with
  | [] => NoDataToDisplay
  | _ =>
      match flat_map hit_prices allHits with
      | [] => NoPriceDataAvailable
      | prices => Histogram prices
      end
  end.

(** The distance a card is sorted by in [renderHospitals]: [Infinity] for a
    hospital without finite coordinates. *)
Definition card_distance (zipLat zipLon : value) (h : hospital) : number :=
  if isFinite (lat h) && isFinite (lon h)
  then gcMiles (zipLon, zipLat) (lon h, lat h)
  else PosInfinity.

(** [sortedHospitals] in [renderHospitals]: the list as given, or sorted by
    distance when the entered ZIP, trimmed, is a key of the table with
    finite coordinates. *)
Definition sortedHospitals (ZIP : gmap string (value * value))
    (zip_value : string) (hlist : list hospital) : list hospital :=
  let enteredZip := trim zip_value in
  if String.eqb enteredZip "" then hlist
  else match ZIP !! enteredZip with
       | Some (zipLat, zipLon) =>
           if isFinite zipLat && isFinite zipLon
           then Array_sort
                  (fun a b => Nsub (card_distance zipLat zipLon a)
                                   (card_distance zipLat zipLon b))
                  hlist
           else hlist
       | None => hlist
       end.

(** [distanceText] of one card in [renderHospitals]. *)
Definition distanceText (ZIP : gmap string (value * value))
    (zip_value : string) (h : hospital) : string :=
  let enteredZip := trim zip_value in
  if negb (String.eqb enteredZip "")
  then match ZIP !! enteredZip with
       | Some (zipLat, zipLon) =>
           if isFinite (lat h) && isFinite (lon h)
              && isFinite zipLat && isFinite zipLon
           then toFixed (gcMiles (zipLon, zipLat) (lon h, lat h)) 0 +:+ " mi"
           else ""
       | None => ""
       end
  else "".

(** *** The Arrow variant of the query *)





(** *** The worker pool of [go] *)

(** [const pool = 4]. *)
Definition pool : nat := 4.

(** The shared cursor [i] over [nearby], the indices whose query a worker is
    awaiting, and the indices whose hits have been stored with
    [hitsById.set], in the order they were stored. *)
Record pool_state : Type := {
  next_index : nat;
  awaited : list nat;
  stored : list nat
}.

(** A worker that is not waiting takes [nearby[i++]] (the test of the
    [while] and the increment run without interruption), or the [k]-th
    awaited query settles and its worker stores the hits.  A worker whose
    hospital needs no query stores at once: a take followed by its settle. *)
Inductive pool_event : Type :=
  | Take
  | Settle (k : nat).

Definition pool_step (n : nat) (st : pool_state) (e : pool_event)
  : option pool_state :=
  match e with
  | Take =>
      if Nat.ltb (next_index st) n && Nat.ltb (length (awaited st)) pool
      then Some {| next_index := S (next_index st);
                   awaited := awaited st ++ [next_index st];
                   stored := stored st |}
      else None
  | Settle k =>
      match awaited st !! k with
      | Some i => Some {| next_index := next_index st;
                          awaited := delete k (awaited st);
                          stored := stored st ++ [i] |}
      | None => None
      end
  end.

Fixpoint pool_run (n : nat) (st : pool_state) (es : list pool_event)
  : option pool_state :=
  match es with
  | [] => Some st
  | e :: es' =>
      match pool_step n st e with
      | Some st' => pool_run n st' es'
      | None => None
      end
  end.

Definition pool_start : pool_state :=
  {| next_index := 0; awaited := []; stored := [] |}.

(** [Promise.all] over the workers resolves when every worker has left its
    loop: nothing is awaited and the cursor has reached the end. *)
Definition pool_done (n : nat) (st : pool_state) : Prop :=
  awaited st = [] /\ n <= next_index st.

(** *** The words of the specification *)

(** The precedence of the price fields in the effective amount. *)
Definition amount_precedence : list string :=
  [ "estimated_amount"; "standard_charge_dollar"; "standard_charge_gross";
    "standard_charge_min"; "standard_charge_max" ].

(** A field that gives no amount: absent, null, not numeric (its conversion
    to a number is NaN), or zero. *)
Definition no_amount (v : value) : bool :=
  match v with
  | Undefined | Null => true
  | _ =>
      match ToNumber v with
      | NaN => true
      | Finite q => Qeq_bool q 0
      | NegInfinity | PosInfinity => false
      end
  end.

(** A transport failure: the fetch is rejected, or the status is not a
    success. *)
Definition failed (resp : response) : Prop :=
  resp = NetworkError \/ exists text, resp = HttpResponse false text.

(** The parse log and the cache in step: a path has been parsed once if it
    is cached and never otherwise. *)
Definition parsed_once (s : session) : Prop :=
  forall p, count_occ string_dec (parseLog s) p
            = match jsonCache s !! p with Some _ => 1 | None => 0 end.

(** What holds of the session and the calls in flight after any events. *)
Definition cache_consistent (t : tasks) : Prop :=
  forall p,
    count_occ string_dec (parseLog (sess t)) p
    + count_occ string_dec (inflight t) p
    <= count_occ string_dec (fetchLog (sess t)) p
    /\ (forall jsonData,
          jsonCache (sess t) !! p = Some jsonData ->
          1 <= count_occ string_dec (parseLog (sess t)) p
          /\ exists text, jsonData = parse_json_lines text)
    /\ (p = "" -> count_occ string_dec (fetchLog (sess t)) p = 0).

(** A [payer_name] on which [.trim()] throws: truthy and not a string. *)
Definition trim_throws (v : value) : bool :=
  match v with
  | Str _ => false
  | _ => truthy v
  end.

(** The text of a file whose lines are [lines]: joined by line feeds. *)
Definition join_lines (lines : list string) : string :=
  String.concat (String (ascii_of_nat 10) EmptyString) lines.

(** A line holds no line feed. *)
Definition single_line (line : string) : Prop :=
  Forall (fun c => Nat.eqb (nat_of_ascii c) 10 = false)
         (list_ascii_of_string line).




(** A coordinate that reads as a finite number once converted: a finite
    number, an empty cell ([null], read as 0), a boolean, or a text that
    reads as a finite number. *)
Definition reads_finite (v : value) : bool :=
  match v with
  | Num n => Nfinite n
  | Null | Bool _ => true
  | Str s | Obj s => Nfinite (StringToNumber s)
  | Undefined => false
  end.

(** A hospital both of whose coordinates read as finite numbers. *)
Definition located (h : hospital) : bool :=
  reads_finite (lon h) && reads_finite (lat h).

(** The great-circle distance in miles from [center], a [lon, lat] pair, to
    the hospital: the central angle times the radius of the Earth. *)
Definition great_circle_miles (center : value * value) (h : hospital)
  : number :=
  Nmul (geoDistance center (lon h, lat h)) EARTH_MI.


(** The order the hit list is said to be in: non-decreasing under [key]. *)
Definition nondecreasing_by (key : record -> number) (l : list record) : Prop :=
  Sorted (fun x y => Nle (key x) (key y) = true) l.

End Program.

(** ** A host to run the embedding on

    A small instance of [Host], used to evaluate the program on concrete
    inputs.  It covers decimal numerals without exponent, patterns built
    from literals, [.], [\d], [^], [$], groups, [|] and the quantifiers
    [*], [+], [?], and one-level JSON objects whose members are strings
    without escapes, decimal numbers, [true], [false] or [null].
    Numbers print in positional notation and arithmetic is exact on
    rationals.  Patterns and lines outside these fragments are rejected;
    beyond the fragments the instance is not meant to agree with a
    JavaScript engine, and nothing below is proved about it: the properties
    hold for every host. *)
Module RefHost.

Definition is_digit (c : ascii) : bool :=
  let n := nat_of_ascii c in (Nat.leb 48 n && Nat.leb n 57)%bool.

Definition digit_value (c : ascii) : Z := Z.of_nat (nat_of_ascii c - 48).

(** Leading digits: their count, their value after [acc], and the rest. *)
Fixpoint read_digits (acc : Z) (count : nat) (l : list ascii)
  : Z * nat * list ascii :=
  match l with
  | c :: l' =>
      if is_digit c then read_digits (10 * acc + digit_value c)%Z (S count) l'
      else (acc, count, l)
  | [] => (acc, count, l)
  end.

Definition decimal (neg : bool) (ip fp : Z) (fc : nat) : Q :=
  let scale := Z.pow 10 (Z.of_nat fc) in
  let q := Qred (Qmake (ip * scale + fp)%Z (Z.to_pos scale)) in
  if neg then Qred (Qopp q) else q.

(** [sign] digits [. digits], with at least one digit; the value read and
    what follows it. *)
Definition scan_number (l : list ascii) : option (Q * list ascii) :=
  let '(neg, l1) :=
    match l with
    | "-"%char :: l' => (true, l')
    | "+"%char :: l' => (false, l')
    | _ => (false, l)
    end in
  let '(ip, ic, l2) := read_digits 0 0 l1 in
  match l2 with
  | "."%char :: l' =>
      let '(fp, fc, l3) := read_digits 0 0 l' in
      if Nat.eqb ic 0 && Nat.eqb fc 0 then None
      else Some (decimal neg ip fp fc, l3)
  | _ =>
      if Nat.eqb ic 0 then None else Some (decimal neg ip 0 0, l2)
  end.

Definition StringToNumber (s : string) : number :=
  let l := trim_list (list_ascii_of_string s) in
  match l with
  | [] => Finite 0
  | _ =>
      let t := string_of_list_ascii l in
      if String.eqb t "Infinity" || String.eqb t "+Infinity" then PosInfinity
      else if String.eqb t "-Infinity" then NegInfinity
      else match scan_number l with
           | Some (q, []) => Finite q
           | _ => NaN
           end
  end.

Definition StringParseFloat (s : string) : number :=
  let l := trimStart_list (list_ascii_of_string s) in
  let t := string_of_list_ascii l in
  if String.prefix "Infinity" t || String.prefix "+Infinity" t then PosInfinity
  else if String.prefix "-Infinity" t then NegInfinity
  else match scan_number l with
       | Some (q, _) => Finite q
       | None => NaN
       end.

(** [digits] decimal digits of a natural number below [10 ^ digits]. *)
Fixpoint pad_digits (digits : nat) (n : Z) : string :=
  match digits with
  | O => ""
  | S d => pad_digits d (n / 10)%Z +:+ pretty (n mod 10)%Z
  end.

(** Fixed-point rendering, ties away from zero, the sign kept. *)
Definition fixed (q : Q) (digits : nat) : string :=
  let scale := Z.pow 10 (Z.of_nat digits) in
  let num := (Z.abs (Qnum q) * scale)%Z in
  let den := Zpos (Qden q) in
  let n := ((2 * num + den) / (2 * den))%Z in
  let body := pretty (n / scale)%Z
              +:+ (if Nat.eqb digits 0 then ""
                   else "." +:+ pad_digits digits (n mod scale)%Z) in
  if (Qnum q <? 0)%Z then "-" +:+ body else body.

Fixpoint strip_zeros_rev (l : list ascii) : list ascii :=
  match l with
  | "0"%char :: l' => strip_zeros_rev l'
  | "."%char :: l' => l'
  | _ => l
  end.

(** Trailing zeros of the fraction removed, and the point with them. *)
Definition strip_zeros (s : string) : string :=
  if existsb (fun c => Ascii.eqb c ".") (list_ascii_of_string s)
  then string_of_list_ascii (rev (strip_zeros_rev (rev (list_ascii_of_string s))))
  else s.

Definition special (n : number) (finite : Q -> string) : string :=
  match n with
  | NaN => "NaN"
  | PosInfinity => "Infinity"
  | NegInfinity => "-Infinity"
  | Finite q => finite q
  end.

Definition NumberToString (n : number) : string :=
  special n (fun q => strip_zeros (fixed q 20)).

Definition toFixed (n : number) (digits : nat) : string :=
  special n (fun q => fixed q digits).

(** Commas between groups of three digits, from the right. *)
Fixpoint group_rev (l : list ascii) (run : nat) : list ascii :=
  match l with
  | [] => []
  | c :: l' =>
      if is_digit c && Nat.eqb run 3 then ","%char :: c :: group_rev l' 1
      else c :: group_rev l' (if is_digit c then S run else run)
  end.

Fixpoint split_point (l : list ascii) : list ascii * list ascii :=
  match l with
  | [] => ([], [])
  | c :: l' =>
      if Ascii.eqb c "." then ([], l)
      else let '(i, f) := split_point l' in (c :: i, f)
  end.

(** The [en-US] rendering: at most three fraction digits, grouped. *)
Definition toLocaleString (n : number) : string :=
  match n with
  | NaN => "NaN"
  | PosInfinity => "∞"
  | NegInfinity => "-∞"
  | Finite q =>
      let l := list_ascii_of_string (strip_zeros (fixed q 3)) in
      let '(int_part, frac_part) := split_point l in
      string_of_list_ascii (rev (group_rev (rev int_part) 0) ++ frac_part)
  end.

(** *** Patterns *)

Inductive re : Type :=
  | REmpty
  | RChar (c : ascii)
  | RAny
  | RDigit
  | RBol
  | REol
  | RSeq (a b : re)
  | RAlt (a b : re)
  | RStar (a : re).

Definition is_quantifier (c : ascii) : bool :=
  Ascii.eqb c "*" || Ascii.eqb c "+" || Ascii.eqb c "?".

Definition is_alnum (c : ascii) : bool :=
  let n := nat_of_ascii c in
  is_digit c || (Nat.leb 65 n && Nat.leb n 90) || (Nat.leb 97 n && Nat.leb n 122).

(** A quantifier after an atom: [*], [+] or [?], then an optional [?]
    (lazy, which does not change whether there is a match); a second
    quantifier has nothing to repeat. *)
Definition parse_postfix (assertion : bool) (a : re) (l : list ascii)
  : option (re * list ascii) :=
  match l with
  | c :: l1 =>
      if is_quantifier c then
        if assertion then None
        else
          let r := if Ascii.eqb c "*" then RStar a
                   else if Ascii.eqb c "+" then RSeq a (RStar a)
                   else RAlt a REmpty in
          let l2 := match l1 with
                    | "?"%char :: l' => l'
                    | _ => l1
                    end in
          match l2 with
          | d :: _ => if is_quantifier d then None else Some (r, l2)
          | [] => Some (r, l2)
          end
      else Some (a, l)
  | [] => Some (a, l)
  end.

(** Disjunction, alternative and term of the pattern grammar, by recursive
    descent; [fuel] bounds the nesting. *)
Fixpoint parse_alt (fuel : nat) (l : list ascii) : option (re * list ascii) :=
  match fuel with
  | O => None
  | S f =>
      let parse_atom (l : list ascii) : option (bool * re * list ascii) :=
        match l with
        | [] => None
        | "("%char :: l1 =>
            match parse_alt f l1 with
            | Some (a, ")"%char :: l2) => Some (false, a, l2)
            | _ => None
            end
        | "\"%char :: c :: l1 =>
            if Ascii.eqb c "d" then Some (false, RDigit, l1)
            else if is_alnum c then None
            else Some (false, RChar c, l1)
        | "\"%char :: [] => None
        | c :: l1 =>
            if is_quantifier c || Ascii.eqb c "[" || Ascii.eqb c "{" then None
            else if Ascii.eqb c "." then Some (false, RAny, l1)
            else if Ascii.eqb c "^" then Some (true, RBol, l1)
            else if Ascii.eqb c "$" then Some (true, REol, l1)
            else Some (false, RChar c, l1)
        end in
      let fix parse_seq (n : nat) (l : list ascii) : option (re * list ascii) :=
        match n with
        | O => None
        | S n' =>
            match l with
            | [] => Some (REmpty, l)
            | c :: _ =>
                if Ascii.eqb c "|" || Ascii.eqb c ")" then Some (REmpty, l)
                else
                  match parse_atom l with
                  | Some (assertion, a, l1) =>
                      match parse_postfix assertion a l1 with
                      | Some (t, l2) =>
                          match parse_seq n' l2 with
                          | Some (b, l3) => Some (RSeq t b, l3)
                          | None => None
                          end
                      | None => None
                      end
                  | None => None
                  end
            end
        end in
      match parse_seq (S (length l)) l with
      | Some (a, "|"%char :: l1) =>
          match parse_alt f l1 with
          | Some (b, l2) => Some (RAlt a b, l2)
          | None => None
          end
      | r => r
      end
  end.

(** The whole pattern; a [)] left over is unmatched. *)
Definition compile (pattern : string) : option re :=
  let l := list_ascii_of_string pattern in
  match parse_alt (S (length l)) l with
  | Some (r, []) => Some r
  | _ => None
  end.

Definition lower (c : ascii) : ascii :=
  let n := nat_of_ascii c in
  if Nat.leb 65 n && Nat.leb n 90 then ascii_of_nat (n + 32) else c.

Fixpoint re_size (r : re) : nat :=
  match r with
  | RSeq a b | RAlt a b => S (re_size a + re_size b)
  | RStar a => S (re_size a)
  | _ => 1
  end.

(** Backtracking match of [r] at the head of [s], then [k] on what is
    left; [bol] says whether the head of [s] is the start of the input.
    A starred expression must consume input to be repeated. *)
Fixpoint rmatch (fuel : nat) (r : re) (s : list ascii) (bol : bool)
    (k : list ascii -> bool -> bool) : bool :=
  match fuel with
  | O => false
  | S f =>
      match r with
      | REmpty => k s bol
      | RChar c =>
          match s with
          | d :: s' => Ascii.eqb (lower c) (lower d) && k s' false
          | [] => false
          end
      | RAny =>
          match s with
          | d :: s' =>
              negb (Nat.eqb (nat_of_ascii d) 10 || Nat.eqb (nat_of_ascii d) 13)
              && k s' false
          | [] => false
          end
      | RDigit =>
          match s with
          | d :: s' => is_digit d && k s' false
          | [] => false
          end
      | RBol => bol && k s bol
      | REol => match s with [] => k s bol | _ => false end
      | RSeq a b => rmatch f a s bol (fun s' bol' => rmatch f b s' bol' k)
      | RAlt a b => rmatch f a s bol k || rmatch f b s bol k
      | RStar a =>
          rmatch f a s bol
            (fun s' bol' =>
               Nat.ltb (length s') (length s) && rmatch f (RStar a) s' bol' k)
          || k s bol
      end
  end.

(** [regex.test(s)]: a match starting anywhere. *)
Fixpoint search (fuel : nat) (r : re) (s : list ascii) (bol : bool) : bool :=
  rmatch fuel r s bol (fun _ _ => true)
  || match s with
     | [] => false
     | _ :: s' => search fuel r s' false
     end.

Definition test (r : string * re) (s : string) : bool :=
  let l := list_ascii_of_string s in
  search ((re_size (snd r) + 1) * (length l + 2)) (snd r) l true.

Definition RegExp_new (pattern : string) : option (string * re) :=
  match compile pattern with
  | Some r => Some (pattern, r)
  | None => None
  end.

Definition compiles (pattern : string) : bool :=
  match compile pattern with Some _ => true | None => false end.

(** *** JSON lines *)

Inductive token : Type :=
  | TLBrace | TRBrace | TColon | TComma
  | TString (s : string)
  | TNumber (q : Q)
  | TTrue | TFalse | TNull.

Definition is_quote (c : ascii) : bool := Nat.eqb (nat_of_ascii c) 34.

(** The characters up to the closing quote; no escapes. *)
Fixpoint read_string (l : list ascii) : option (list ascii * list ascii) :=
  match l with
  | [] => None
  | c :: l' =>
      if is_quote c then Some ([], l')
      else if Ascii.eqb c "\" then None
      else match read_string l' with
           | Some (body, rest) => Some (c :: body, rest)
           | None => None
           end
  end.

Definition strip_prefix (word : string) (l : list ascii) : option (list ascii) :=
  let w := list_ascii_of_string word in
  if String.eqb (string_of_list_ascii (firstn (length w) l)) word
  then Some (skipn (length w) l) else None.

Fixpoint lex (fuel : nat) (l : list ascii) : option (list token) :=
  match fuel with
  | O => None
  | S f =>
      let next (t : token) (rest : list ascii) :=
        match lex f rest with
        | Some ts => Some (t :: ts)
        | None => None
        end in
      match l with
      | [] => Some []
      | c :: l' =>
          if is_whitespace c then lex f l'
          else if Ascii.eqb c "{" then next TLBrace l'
          else if Ascii.eqb c "}" then next TRBrace l'
          else if Ascii.eqb c ":" then next TColon l'
          else if Ascii.eqb c "," then next TComma l'
          else if is_quote c then
            match read_string l' with
            | Some (body, rest) => next (TString (string_of_list_ascii body)) rest
            | None => None
            end
          else if is_digit c || Ascii.eqb c "-" then
            match scan_number l with
            | Some (q, rest) =>
                if Nat.ltb (length rest) (length l) then next (TNumber q) rest
                else None
            | None => None
            end
          else
            match strip_prefix "true" l, strip_prefix "false" l,
                  strip_prefix "null" l with
            | Some rest, _, _ => next TTrue rest
            | _, Some rest, _ => next TFalse rest
            | _, _, Some rest => next TNull rest
            | _, _, _ => None
            end
      end
  end.

Definition token_value (t : token) : option value :=
  match t with
  | TString s => Some (Str s)
  | TNumber q => Some (Num (Finite q))
  | TTrue => Some (Bool true)
  | TFalse => Some (Bool false)
  | TNull => Some Null
  | _ => None
  end.

(** The members after the opening brace; a later member with the same key
    replaces the earlier one. *)
Fixpoint members (acc : record) (ts : list token) : option record :=
  match ts with
  | TString k :: TColon :: v :: rest =>
      match token_value v with
      | Some x =>
          match rest with
          | [TRBrace] => Some (<[k := x]> acc)
          | TComma :: rest' => members (<[k := x]> acc) rest'
          | _ => None
          end
      | None => None
      end
  | _ => None
  end.

Definition JSON_parse (line : string) : option (option record) :=
  let l := list_ascii_of_string line in
  match lex (S (length l)) l with
  | Some [TNull] => Some None
  | Some [TLBrace; TRBrace] => Some (Some ∅)
  | Some (TLBrace :: ts) =>
      match members ∅ ts with
      | Some r => Some (Some r)
      | None => None
      end
  | Some [t] =>
      match token_value t with
      | Some _ => Some (Some ∅)
      | None => None
      end
  | _ => None
  end.

(** *** Arithmetic and distance *)

Definition Nmul (a b : number) : number :=
  match a, b with
  | Finite x, Finite y => Finite (Qred (x * y))
  | NaN, _ | _, NaN => NaN
  | Finite x, i | i, Finite x =>
      if Qeq_bool x 0 then NaN
      else if Qle_bool 0 x then i
      else match i with PosInfinity => NegInfinity | _ => PosInfinity end
  | PosInfinity, PosInfinity | NegInfinity, NegInfinity => PosInfinity
  | _, _ => NegInfinity
  end.

Definition Ndiv (a b : number) : number :=
  match a, b with
  | Finite x, Finite y =>
      if Qeq_bool y 0
      then (if Qeq_bool x 0 then NaN
            else if Qle_bool 0 x then PosInfinity else NegInfinity)
      else Finite (Qred (x / y))
  | NaN, _ | _, NaN => NaN
  | Finite _, _ => Finite 0
  | i, Finite y =>
      if Qle_bool 0 y then i
      else match i with PosInfinity => NegInfinity | _ => PosInfinity end
  | _, _ => NaN
  end.

(** A coordinate as the multiplication in d3 coerces it. *)
Definition coordinate (v : value) : option Q :=
  match v with
  | Num (Finite q) => Some q
  | Null => Some 0%Q
  | Bool b => Some (if b then 1%Q else 0%Q)
  | Str s | Obj s =>
      match StringToNumber s with
      | Finite q => Some q
      | _ => None
      end
  | _ => None
  end.

(** A stand-in for the central angle: 0 between a point and itself, and
    otherwise the sum of the differences in longitude and latitude, in
    radians with 355/113 for pi (never below the true angle). *)
Definition geoDistance (a b : value * value) : number :=
  match coordinate (fst a), coordinate (snd a),
        coordinate (fst b), coordinate (snd b) with
  | Some x1, Some y1, Some x2, Some y2 =>
      Finite (Qred ((Qabs (x1 - x2) + Qabs (y1 - y2)) * (355 # 113) / 180))
  | _, _, _, _ => NaN
  end.

(** A stand-in for the drawing of the circle: it goes through for a
    finite radius around a centre whose coordinates read as numbers. *)
Definition geoCircle_drawn (center : value * value) (deg : number) : bool :=
  match deg, coordinate (fst center), coordinate (snd center) with
  | Finite _, Some _, Some _ => true
  | _, _, _ => false
  end.

Definition host : Host :=
  Build_Host StringToNumber StringParseFloat NumberToString toLocaleString
             toFixed Ndiv Nmul (string * re) RegExp_new test fst
             JSON_parse geoDistance geoCircle_drawn.

End RefHost.

(** ** Sample data

    A chargemaster of three records and one malformed line, two hospitals
    publishing it under the same path, a hospital without usable
    coordinates, and the page's tables and controls for a search around
    ZIP 27710. *)
Module Sample.

Definition mri_brain : record :=
  {[ "description" := Str "MRI brain"; "code" := Str "70551";
     "rc_code" := Str "0610"; "payer_name" := Str " Aetna ";
     "standard_charge_min" := Num (Finite 100) ]}.

Definition mri_spine : record :=
  {[ "description" := Str "MRI spine"; "code" := Str "72148";
     "rc_code" := Str "0610"; "payer_name" := Str "Cigna";
     "estimated_amount" := Num (Finite 5) ]}.

Definition ct_head : record :=
  {[ "description" := Str "CT head"; "code" := Str "70450";
     "estimated_amount" := Num (Finite 40) ]}.

(** The sample text is written with ['] where the file has the double
    quote. *)
Definition double_quotes (s : string) : string :=
  string_of_list_ascii
    (map (fun c => if Nat.eqb (nat_of_ascii c) 39 then ascii_of_nat 34 else c)
       (list_ascii_of_string s)).

Definition chargemaster_text : string :=
  double_quotes
  "{'description':'MRI brain','code':'70551','rc_code':'0610','payer_name':' Aetna ','standard_charge_min':100}
{'description':'MRI spine','code':'72148','rc_code':'0610','payer_name':'Cigna','estimated_amount':5}
{'description':'broken',
{'description':'CT head','code':'70450','estimated_amount':40}
".

Definition path : string := "docs/data/nc/duke.json".

(** The server has the one file and answers 404 for anything else. *)
Definition net : network :=
  fun _ url =>
    if String.eqb url "data/nc/duke.json"
    then HttpResponse true chargemaster_text
    else HttpResponse false "".

Definition offline : network := fun _ _ => NetworkError.

Definition duke : hospital :=
  {| hospital_id := Num (Finite 1); lat := Num (Finite (360071 # 10000));
     lon := Num (Finite (-789382 # 10000)); json_path := path |}.

Definition duke_north : hospital :=
  {| hospital_id := Num (Finite 2); lat := Num (Finite (361 # 10));
     lon := Num (Finite (-789 # 10)); json_path := path |}.

Definition unplaced : hospital :=
  {| hospital_id := Num (Finite 3); lat := Str "n/a"; lon := Str "n/a";
     json_path := "" |}.

Definition service_mode : app :=
  {| currentConfigType := "service";
     cmsRate := {[ "70551" := Finite 100 ]};
     unit_checked := true |}.

Definition revenue_mode : app :=
  {| currentConfigType := "revenue-code";
     cmsRate := {[ "70551" := Finite 100 ]};
     unit_checked := true |}.

Definition index : @tables RefHost.host :=
  {| ZIP := {[ "27710" := (Num (Finite (360071 # 10000)),
                          Num (Finite (-789382 # 10000))) ]};
     hospitals := [duke; unplaced];
     services := ∅;
     revenueCodes := ∅ |}.

(** A custom search for the pattern [q] around 27710, within 25 miles. *)
Definition custom_search (q : string) : controls :=
  {| zip_value := " 27710 "; radius_value := "25";
     service_value := "custom"; q_value := q; payer_value := "" |}.

(** Rows of [zip_centroids.csv] as [d3.autoType] gives them: the ZIP is a
    number, so 00501 has lost its zeros. *)
Definition zip_rows : list record :=
  [ {[ "zip" := Num (Finite 27710); "lat" := Num (Finite (360071 # 10000));
       "lon" := Num (Finite (-789382 # 10000)) ]};
    {[ "zip" := Num (Finite 501); "lat" := Num (Finite (408 # 10));
       "lon" := Num (Finite (-73)) ]} ].

(** Rows of [medicare_pricing_matched.csv]. *)
Definition cms_rows : list record :=
  [ {[ "code" := Num (Finite 70551); "price" := Num (Finite 100) ]};
    {[ "code" := Num (Finite 72148); "price" := Str "n/a" ]} ].

(** Entries of [service_config.json], and a file whose second pattern does
    not compile. *)
Definition service_entries : list (string * option record) :=
  [ ("MRI", Some {[ "pattern" := Str "MRI|7055" ]});
    ("CT", Some {[ "pattern" := Str "^CT" ]}) ].

Definition broken_entries : list (string * option record) :=
  [ ("MRI", Some {[ "pattern" := Str "MRI|7055" ]});
    ("CT", Some {[ "pattern" := Str "(CT" ]}) ].

(** A search around 00501 entered without its zeros. *)
Definition holtsville : controls :=
  {| zip_value := " 501 "; radius_value := "25";
     service_value := ""; q_value := ""; payer_value := "" |}.

(** A record whose payer is a number. *)
Definition numbered_payer : record :=
  {[ "description" := Str "X-ray"; "payer_name" := Num (Finite 7) ]}.

(** Three lines of a chargemaster, the second malformed. *)
Definition three_lines : list string :=
  [ double_quotes "{'description':'CT head','code':'70450','estimated_amount':40}";
    "{oops";
    double_quotes "{'description':'MRI spine','code':'72148','rc_code':'0610','payer_name':'Cigna','estimated_amount':5}" ].


(** A hospital whose coordinate cells are empty: [d3.autoType] reads them
    as [null]. *)
Definition uncharted : hospital :=
  {| hospital_id := Num (Finite 4); lat := Null; lon := Null;
     json_path := "" |}.

(** The tables with four hospitals: two near 27710, one whose coordinates
    are text, one whose coordinates are empty. *)
Definition wide_index : @tables RefHost.host :=
  {| ZIP := {[ "27710" := (Num (Finite (360071 # 10000)),
                          Num (Finite (-789382 # 10000))) ]};
     hospitals := [duke; duke_north; unplaced; uncharted];
     services := ∅;
     revenueCodes := ∅ |}.

(** A custom search for MRI around 27710 within the radius entered. *)
Definition search_within (radius : string) : controls :=
  {| zip_value := "27710"; radius_value := radius;
     service_value := "custom"; q_value := "MRI"; payer_value := "" |}.


End Sample.


(** * Properties *)

Section Properties.
Context `{H : Host}.

Local Arguments Ngt : simpl never.
Local Arguments Nge : simpl never.

(** ** Numbers *)

Lemma Nor_truthy (x y : number) : Ntruthy x = true -> Nor x y = x.
Proof. unfold Nor. intros ->. reflexivity. Qed.

Lemma Nor_falsy (x y : number) : Ntruthy x = false -> Nor x y = y.
Proof. unfold Nor. intros ->. reflexivity. Qed.

Lemma Nor_assoc (a b c : number) : Nor (Nor a b) c = Nor a (Nor b c).
Proof.
  unfold Nor. destruct (Ntruthy a) eqn:Ea; [now rewrite Ea | reflexivity].
Qed.

Lemma Nor_zero_not_NaN (x : number) : Nor x Nzero <> NaN.
Proof.
  unfold Nor. destruct (Ntruthy x) eqn:E.
  - destruct x; simpl in E; congruence.
  - discriminate.
Qed.

Lemma Ngt_zero_truthy (x : number) : Ngt x Nzero = true -> Ntruthy x = true.
Proof.
  unfold Ngt, Nlt, Nzero. destruct x as [| |q|]; simpl; try congruence.
  intros E. apply andb_true_iff in E as [_ E].
  apply negb_true_iff in E. apply negb_true_iff.
  destruct (Qeq_bool q 0) eqn:Eq; [|reflexivity].
  apply Qeq_bool_iff in Eq.
  assert (Qeq_bool 0 q = true) by (apply Qeq_bool_iff; symmetry; exact Eq).
  congruence.
Qed.

Lemma no_amount_falsy (v : value) :
  no_amount v = negb (Ntruthy (ToNumber v)).
Proof.
  destruct v; simpl; try reflexivity.
  - destruct b; reflexivity.
  - destruct n; simpl; try reflexivity. now rewrite negb_involutive.
  - destruct (StringToNumber s); simpl; try reflexivity.
    now rewrite negb_involutive.
  - destruct (StringToNumber repr); simpl; try reflexivity.
    now rewrite negb_involutive.
Qed.

(** ** Price utilities *)

Lemma amountOf_unfold (r : record) :
  amountOf r =
  Nor (ToNumber (get r "estimated_amount"))
    (Nor (ToNumber (get r "standard_charge_dollar"))
       (Nor (ToNumber (get r "standard_charge_gross"))
          (Nor (ToNumber (get r "standard_charge_min"))
             (Nor (ToNumber (get r "standard_charge_max")) Nzero)))).
Proof. unfold amountOf. now rewrite !Nor_assoc. Qed.

(** C7.  [amountOf] returns 0 when each of the five price fields is absent,
    null, zero or not numeric (unary plus makes NaN of it), and otherwise
    the numeric value of the first field, in the order estimated amount,
    standard-charge-dollar, gross, minimum, maximum, that is none of these
    (a field that is present but zero is passed over like an absent one). *)
Theorem amountOf_first_nonzero (r : record) :
  (forallb (fun f => no_amount (get r f)) amount_precedence = true ->
   amountOf r = Nzero)
  /\ (forall before f after,
        amount_precedence = before ++ f :: after ->
        forallb (fun g => no_amount (get r g)) before = true ->
        no_amount (get r f) = false ->
        amountOf r = ToNumber (get r f)).
Proof.
  rewrite amountOf_unfold. split.
  - simpl. rewrite !no_amount_falsy, !andb_true_iff, !negb_true_iff.
    intros (E1 & E2 & E3 & E4 & E5 & _).
    now rewrite !Nor_falsy.
  - intros before f after Hsplit Hbefore Hf.
    rewrite no_amount_falsy, negb_false_iff in Hf.
    unfold amount_precedence in Hsplit.
    repeat
      (destruct before as [|g before];
       [ injection Hsplit as <- _; now rewrite Nor_truthy
       | injection Hsplit as <- Hsplit;
         simpl in Hbefore; apply andb_true_iff in Hbefore as [Hg Hbefore];
         rewrite no_amount_falsy, negb_true_iff in Hg;
         rewrite (Nor_falsy _ _ Hg); clear Hg ]);
      try (destruct before; discriminate Hsplit).
Qed.


Lemma truthy_not_strict_zero (amount : value) :
  truthy amount = true -> strict_zero amount = false.
Proof.
  destruct amount as [| | |n| |]; try reflexivity.
  destruct n; try reflexivity. simpl.
  now rewrite negb_true_iff.
Qed.

Lemma formatPrice_falsy (a : app) (amount code : value) :
  truthy amount = false ->
  formatPrice a amount code = {| price := "N/A"; ratio := "N/A" |}.
Proof. unfold formatPrice. now intros ->. Qed.

Lemma formatPrice_truthy (a : app) (amount code : value) :
  truthy amount = true ->
  formatPrice a amount code =
  {| price := "$" +:+ toLocaleString (ToNumber amount);
     ratio :=
       if truthy code then
         match cmsRate a !! ToString code with
         | Some rate =>
             if Ngt rate Nzero
             then toFixed (Ndiv (ToNumber amount) rate) 2 +:+ "x"
             else "N/A"
         | None => "N/A"
         end
       else "N/A" |}.
Proof.
  intros Ht. unfold formatPrice.
  rewrite Ht, (truthy_not_strict_zero _ Ht). cbn [negb orb].
  f_equal. destruct (truthy code); [|reflexivity].
  destruct (cmsRate a !! ToString code) as [rate|]; [|reflexivity].
  destruct (Ngt rate Nzero) eqn:Egt.
  - now rewrite (Nor_truthy _ _ (Ngt_zero_truthy _ Egt)), Egt.
  - unfold Nor. destruct (Ntruthy rate); [now rewrite Egt | reflexivity].
Qed.

(** C8, as the code has it.  A falsy amount gives price "N/A" and ratio
    "N/A" whatever the code; the falsy amounts are [undefined], [null],
    [false], NaN, the number 0 and the empty string.  For any other amount
    the ratio is "N/A" (the code never produces "unknown") when the code is
    empty or missing, or the Medicare table has no rate for it, or the rate
    is not strictly positive; and it is the amount divided by the rate, to
    two decimals, followed by "x", when the code is there and its rate is
    strictly positive.  A text that is not empty is such an amount even when
    it reads as zero ("0", "0.00"): its price is "$" and the number it reads
    as, not "N/A". *)
Theorem formatPrice_ratio (a : app) (amount code : value) :
  (truthy amount = false ->
   formatPrice a amount code = {| price := "N/A"; ratio := "N/A" |})
  /\ (truthy amount = true ->
      (truthy code = false
       \/ cmsRate a !! ToString code = None
       \/ (exists rate, cmsRate a !! ToString code = Some rate
                        /\ Ngt rate Nzero = false) ->
       ratio (formatPrice a amount code) = "N/A")
      /\ (forall rate,
            truthy code = true ->
            cmsRate a !! ToString code = Some rate ->
            Ngt rate Nzero = true ->
            ratio (formatPrice a amount code)
            = toFixed (Ndiv (ToNumber amount) rate) 2 +:+ "x"))
  /\ (truthy amount = false
      <-> amount = Undefined \/ amount = Null \/ amount = Bool false
          \/ amount = Num NaN
          \/ (exists q, amount = Num (Finite q) /\ Qeq_bool q 0 = true)
          \/ amount = Str "")
  /\ (forall s,
        s <> "" ->
        price (formatPrice a (Str s) code)
        = "$" +:+ toLocaleString (StringToNumber s)).
Proof.
  split; [apply formatPrice_falsy|]. split; [|split].
  - intros Ht. rewrite (formatPrice_truthy _ _ _ Ht). simpl. split.
    + intros [-> | [-> | (rate & -> & ->)]]; [reflexivity | | ];
        now destruct (truthy code).
    + intros rate -> -> ->. reflexivity.
  - split.
    + destruct amount as [| |[|]|[| |q|]|s|o]; cbn [truthy Ntruthy];
        try discriminate; auto.
      * intros E. apply negb_false_iff in E. do 4 right. left. eauto.
      * intros E. apply negb_false_iff, String.eqb_eq in E as ->. tauto.
    + intros [-> | [-> | [-> | [-> | [(q & -> & E) | ->]]]]]; try reflexivity.
      cbn [truthy Ntruthy]. now rewrite E.
  - intros s Hs. rewrite formatPrice_truthy; [reflexivity|].
    cbn [truthy]. now apply negb_true_iff, String.eqb_neq.
Qed.

Lemma get_agree_code (r1 r2 : record) :
  (forall f, f <> "rc_code" -> get r1 f = get r2 f) ->
  getCodeField r1 = getCodeField r2.
Proof.
  intros Hagree. unfold getCodeField.
  now rewrite (Hagree "code") by discriminate.
Qed.

Lemma priceTypes_agree (a1 a2 : app) (r1 r2 : record) :
  cmsRate a1 = cmsRate a2 ->
  (forall f, f <> "rc_code" -> get r1 f = get r2 f) ->
  priceTypes a1 r1 = priceTypes a2 r2.
Proof.
  intros Hrate Hagree. unfold priceTypes.
  rewrite (get_agree_code _ _ Hagree).
  rewrite !(Hagree "estimated_amount"), !(Hagree "standard_charge_min"),
    !(Hagree "standard_charge_max") by discriminate.
  unfold formatPrice. now rewrite Hrate.
Qed.

(** C10.  Whatever the configuration mode, the code that is displayed and
    the code used for the Medicare ratio are the record's [code] field:
    two records that differ only in [rc_code], rendered under two modes,
    give the same displayed code and the same price table, every ratio in
    the table is the one [formatPrice] gives for the [code] field, and in
    revenue-code mode the field the pattern is tested against is
    [rc_code]. *)
Theorem code_field_for_display_and_ratio (a1 a2 : app) (r1 r2 : record) :
  cmsRate a1 = cmsRate a2 ->
  unit_checked a1 = unit_checked a2 ->
  (forall f, f <> "rc_code" -> get r1 f = get r2 f) ->
  getCodeField r1 = vor (get r1 "code") (Str "")
  /\ getCodeField r1 = getCodeField r2
  /\ generatePriceTable a1 r1 = generatePriceTable a2 r2
  /\ (forall row, In row (priceTypes a1 r1) ->
        exists field,
          row_ratio row
          = ratio (formatPrice a1 (get r1 field) (vor (get r1 "code") (Str ""))))
  /\ (currentConfigType a1 <> "service" ->
      getSearchCodeField a1 = "rc_code"
      /\ forall regex,
           matchesRegex regex (getSearchCodeField a1) r1
           = RegExp_test regex (ToString (vor (get r1 "description") (Str "")))
             || RegExp_test regex (ToString (vor (get r1 "rc_code") (Str "")))).
Proof.
  intros Hrate Hunit Hagree. split; [reflexivity|].
  split; [now apply get_agree_code|]. split; [|split].
  - unfold generatePriceTable.
    now rewrite (priceTypes_agree _ _ _ _ Hrate Hagree), Hunit.
  - intros row Hin. unfold priceTypes in Hin.
    repeat (apply in_app_or in Hin as [Hin | Hin]);
      match type of Hin with
      | In _ (if not_nullish (get r1 ?f) then _ else _) =>
          destruct (not_nullish (get r1 f)); [|destruct Hin];
          destruct Hin as [<- | []]; exists f; reflexivity
      end.
  - intros Hmode.
    assert (getSearchCodeField a1 = "rc_code") as E.
    { unfold getSearchCodeField.
      destruct (String.eqb_spec (currentConfigType a1) "service"); congruence. }
    split; [exact E|]. intros regex. now rewrite E.
Qed.


(** ** Main search *)

Lemma length_string_of_list_ascii (l : list ascii) :
  String.length (string_of_list_ascii l) = length l.
Proof. induction l as [|c l IH]; simpl; congruence. Qed.

Lemma go_zip_chars (c : controls) :
  list_ascii_of_string (go_zip c)
  = slice_last_list 5
      (padStart_list 5 "0"%char (list_ascii_of_string (trim (zip_value c)))).
Proof.
  unfold go_zip, go_rawZip, slice_last, padStart.
  now rewrite !list_ascii_of_string_of_list_ascii.
Qed.

Lemma padStart_list_length (n : nat) (c : ascii) (l : list ascii) :
  length (padStart_list n c l) = Nat.max n (length l).
Proof.
  unfold padStart_list. rewrite length_app, repeat_length. lia.
Qed.


(** C9.  [go] looks the ZIP up after normalising what was entered: the
    text is trimmed, padded on the left with '0' to five characters and cut
    to its last five characters.  The result always has five characters; an
    entry of at most five characters is searched zero-padded, a longer one
    by its last five; and the "ZIP not found" abort is decided on the
    normalised string. *)
Theorem go_zip_normalized (a : app) (t : tables) (c : controls) :
  let raw := list_ascii_of_string (trim (zip_value c)) in
  let zip := list_ascii_of_string (go_zip c) in
  go_zip c = slice_last 5 (padStart 5 "0"%char (trim (zip_value c)))
  /\ length zip = 5
  /\ (length raw <= 5 -> zip = repeat "0"%char (5 - length raw) ++ raw)
  /\ (5 <= length raw -> zip = skipn (length raw - 5) raw)
  /\ (go a t c = Abort ("ZIP " +:+ go_zip c +:+ " not found.")
      <-> ZIP t !! go_zip c = None).
Proof.
  intros raw zip. subst zip. rewrite go_zip_chars. fold raw.
  split; [reflexivity|]. split; [|split; [|split]].
  - unfold slice_last_list. rewrite length_skipn, padStart_list_length. lia.
  - intros Hlen. unfold slice_last_list.
    rewrite padStart_list_length.
    replace (Nat.max 5 (length raw) - 5) with 0 by lia. reflexivity.
  - intros Hlen. unfold slice_last_list, padStart_list.
    replace (5 - length raw) with 0 by lia. reflexivity.
  - unfold go. destruct (ZIP t !! go_zip c) as [[la lo]|]; [|tauto].
    split; [|discriminate].
    destruct (hospitals t); [discriminate|].
    destruct (go_nearby _ _ _); discriminate.
Qed.


Lemma isFinite_reads_finite (v : value) : isFinite v = reads_finite v.
Proof. destruct v as [| |[|]|n|s|o]; reflexivity. Qed.




(** ** Chargemaster cache *)

Lemma load_start_cached (s : session) (p : string) (jsonData : list record) :
  p <> "" -> jsonCache s !! p = Some jsonData ->
  load_start s (Some p) = (s, Settled jsonData).
Proof.
  intros Hp Hc. unfold load_start.
  destruct (String.eqb_spec p ""); [contradiction|]. now rewrite Hc.
Qed.

Lemma load_start_miss (s : session) (p : string) :
  p <> "" -> jsonCache s !! p = None ->
  load_start s (Some p)
  = ({| jsonCache := jsonCache s; fetchLog := fetchLog s ++ [p];
        parseLog := parseLog s |},
     Awaiting p (length (fetchLog s))).
Proof.
  intros Hp Hc. unfold load_start.
  destruct (String.eqb_spec p ""); [contradiction|]. now rewrite Hc.
Qed.

Lemma load_finish_failed (s : session) (p : string) (resp : response) :
  failed resp -> load_finish s p resp = (s, []).
Proof. now intros [-> | [text ->]]. Qed.

Lemma count_occ_snoc (l : list string) (x p : string) :
  count_occ string_dec (l ++ [x]) p
  = count_occ string_dec l p + (if string_dec x p then 1 else 0).
Proof. rewrite count_occ_app. simpl. now destruct (string_dec x p). Qed.

(** What one call, run to its end, can do to the session. *)
Lemma loadHospitalJSON_cases (net : network) (s : session)
    (jsonPath : option string) :
  (loadHospitalJSON net s jsonPath = (s, [])
   /\ no_path jsonPath = true)
  \/ (exists p jsonData,
        jsonPath = Some p /\ p <> "" /\ jsonCache s !! p = Some jsonData
        /\ loadHospitalJSON net s jsonPath = (s, jsonData))
  \/ (exists p,
        jsonPath = Some p /\ p <> "" /\ jsonCache s !! p = None
        /\ failed (net (length (fetchLog s)) (jsonUrl p))
        /\ loadHospitalJSON net s jsonPath
           = ({| jsonCache := jsonCache s; fetchLog := fetchLog s ++ [p];
                 parseLog := parseLog s |}, []))
  \/ (exists p text,
        jsonPath = Some p /\ p <> "" /\ jsonCache s !! p = None
        /\ net (length (fetchLog s)) (jsonUrl p) = HttpResponse true text
        /\ loadHospitalJSON net s jsonPath
           = ({| jsonCache := <[p := parse_json_lines text]> (jsonCache s);
                 fetchLog := fetchLog s ++ [p];
                 parseLog := parseLog s ++ [p] |}, parse_json_lines text)).
Proof.
  destruct jsonPath as [p|]; [|left; split; reflexivity].
  destruct (String.eqb_spec p "") as [->|Hp]; [left; split; reflexivity|].
  right. destruct (jsonCache s !! p) as [jsonData|] eqn:Hc.
  - left. exists p, jsonData. repeat split; try assumption.
    unfold loadHospitalJSON. now rewrite (load_start_cached _ _ _ Hp Hc).
  - right. unfold loadHospitalJSON. rewrite (load_start_miss _ _ Hp Hc).
    destruct (net (length (fetchLog s)) (jsonUrl p)) as [|[|] text] eqn:Hnet.
    + left. exists p. repeat split; try assumption. now left.
    + right. exists p, text. repeat split; assumption.
    + left. exists p. repeat split; try assumption. right. now exists text.
Qed.

(** An entry of the cache survives any call made one at a time, and no
    further fetch or parse of its path is issued. *)
Lemma loadHospitalJSON_keeps (net : network) (s : session)
    (jsonPath : option string) (p : string) (jsonData : list record) :
  jsonCache s !! p = Some jsonData ->
  let s' := (loadHospitalJSON net s jsonPath).1 in
  jsonCache s' !! p = Some jsonData
  /\ count_occ string_dec (fetchLog s') p = count_occ string_dec (fetchLog s) p
  /\ count_occ string_dec (parseLog s') p = count_occ string_dec (parseLog s) p.
Proof.
  intros Hc.
  destruct (loadHospitalJSON_cases net s jsonPath)
    as [[-> _] | [(q & d & _ & _ & _ & ->) | [(q & -> & Hq & Hm & _ & ->)
       | (q & text & -> & Hq & Hm & _ & ->)]]]; simpl; auto.
  - assert (q <> p) by congruence.
    rewrite count_occ_snoc. destruct (string_dec q p); [contradiction|].
    repeat split; auto; lia.
  - assert (q <> p) by congruence.
    rewrite !count_occ_snoc. destruct (string_dec q p); [contradiction|].
    rewrite lookup_insert_ne by assumption. repeat split; auto; lia.
Qed.

Lemma load_each_keeps (net : network) (calls : list (option string))
    (s : session) (p : string) (jsonData : list record) :
  p <> "" -> jsonCache s !! p = Some jsonData ->
  let later := load_each net s calls in
  jsonCache later.1 !! p = Some jsonData
  /\ count_occ string_dec (fetchLog later.1) p = count_occ string_dec (fetchLog s) p
  /\ count_occ string_dec (parseLog later.1) p = count_occ string_dec (parseLog s) p
  /\ (forall i, calls !! i = Some (Some p) -> later.2 !! i = Some jsonData).
Proof.
  intros Hp. revert s. induction calls as [|q calls IH]; intros s Hc; simpl.
  - repeat split; auto. intros i Hi. discriminate.
  - destruct (loadHospitalJSON net s q) as [s1 d1] eqn:E1.
    destruct (loadHospitalJSON_keeps net s q p jsonData Hc) as (K1 & K2 & K3).
    rewrite E1 in K1, K2, K3. simpl in K1, K2, K3.
    specialize (IH s1 K1). simpl in IH.
    destruct (load_each net s1 calls) as [s2 rest] eqn:E2.
    simpl in IH |- *. destruct IH as (I1 & I2 & I3 & I4).
    repeat split; try congruence.
    intros [|i] Hi; simpl in Hi |- *.
    + injection Hi as ->. unfold loadHospitalJSON in E1.
      rewrite (load_start_cached _ _ _ Hp Hc) in E1. congruence.
    + now apply I4.
Qed.

Lemma loadHospitalJSON_parsed_once (net : network) (s : session)
    (jsonPath : option string) :
  parsed_once s -> parsed_once (loadHospitalJSON net s jsonPath).1.
Proof.
  intros Hinv.
  destruct (loadHospitalJSON_cases net s jsonPath)
    as [[-> _] | [(q & d & _ & _ & _ & ->) | [(q & -> & Hq & Hm & _ & ->)
       | (q & text & -> & Hq & Hm & _ & ->)]]]; simpl; auto.
  intros p. simpl. rewrite count_occ_snoc, Hinv.
  destruct (string_dec q p) as [->|Hne].
  - now rewrite Hm, lookup_insert_eq.
  - rewrite lookup_insert_ne by assumption. lia.
Qed.

Lemma load_each_parsed_once (net : network) (calls : list (option string))
    (s : session) :
  parsed_once s -> parsed_once (load_each net s calls).1.
Proof.
  revert s. induction calls as [|q calls IH]; intros s Hinv; simpl; auto.
  pose proof (loadHospitalJSON_parsed_once net s q Hinv) as H1.
  destruct (loadHospitalJSON net s q) as [s1 d1]. simpl in H1.
  specialize (IH s1 H1).
  destruct (load_each net s1 calls) as [s2 rest]. exact IH.
Qed.


(** Under any interleaving: no event removes an entry from the cache. *)
Lemma step_keeps_cached (t t' : tasks) (e : event) (p : string) :
  step t e = Some t' ->
  is_Some (jsonCache (sess t) !! p) -> is_Some (jsonCache (sess t') !! p).
Proof.
  intros Hstep Hc. destruct e as [jsonPath | q resp]; simpl in Hstep.
  - destruct jsonPath as [q|]; simpl in Hstep; [|now injection Hstep as <-].
    destruct (String.eqb q ""); [now injection Hstep as <-|].
    destruct (jsonCache (sess t) !! q); now injection Hstep as <-.
  - destruct (remove_first q (inflight t)); [|discriminate].
    destruct resp as [|[|] text]; simpl in Hstep; injection Hstep as <-;
      simpl; try assumption.
    destruct (decide (q = p)) as [->|Hne].
    + rewrite lookup_insert_eq. eauto.
    + now rewrite lookup_insert_ne.
Qed.

Lemma run_keeps_cached (es : list event) (t t' : tasks) (p : string) :
  run t es = Some t' ->
  is_Some (jsonCache (sess t) !! p) -> is_Some (jsonCache (sess t') !! p).
Proof.
  revert t. induction es as [|e es IH]; intros t Hrun Hc; simpl in Hrun.
  - now injection Hrun as <-.
  - destruct (step t e) as [t1|] eqn:E; [|discriminate].
    eapply IH; [exact Hrun|]. eapply step_keeps_cached; eassumption.
Qed.

(** C4, as the code has it.  A call that starts when the path is cached
    settles at once to the cached sequence and issues nothing, in any
    session and under any interleaving, and no event ever removes a path
    from the cache.  After a load that fetched and parsed a path, calls made
    one at a time (each returning before the next starts) never fetch or
    parse that path again and each call for it returns the sequence of the
    first load; in a session of such calls every path is parsed at most
    once.  Calls for a path that overlap are outside this: two calls started
    before either has its response each issue a fetch and each parse their
    own body, and the second body replaces the first in the cache. *)
Theorem cached_after_first_load (net : network) (s : session)
    (p text : string) (calls : list (option string)) :
  p <> "" ->
  jsonCache s !! p = None ->
  net (length (fetchLog s)) (jsonUrl p) = HttpResponse true text ->
  let first := loadHospitalJSON net s (Some p) in
  let later := load_each net first.1 calls in
  first.2 = parse_json_lines text
  /\ jsonCache later.1 !! p = Some first.2
  /\ count_occ string_dec (fetchLog later.1) p
     = S (count_occ string_dec (fetchLog s) p)
  /\ count_occ string_dec (parseLog later.1) p
     = S (count_occ string_dec (parseLog s) p)
  /\ (forall i, calls !! i = Some (Some p) -> later.2 !! i = Some first.2)
  /\ (forall calls' q,
        count_occ string_dec
          (parseLog (load_each net empty_session calls').1) q <= 1)
  /\ (forall s' jsonData,
        jsonCache s' !! p = Some jsonData ->
        load_start s' (Some p) = (s', Settled jsonData))
  /\ (forall es t',
        run (idle first.1) es = Some t' ->
        is_Some (jsonCache (sess t') !! p))
  /\ (forall text1 text2,
        exists t',
          run (idle s) [Call (Some p); Call (Some p);
                        Respond p (HttpResponse true text1);
                        Respond p (HttpResponse true text2)] = Some t'
          /\ fetchLog (sess t') = fetchLog s ++ [p; p]
          /\ parseLog (sess t') = parseLog s ++ [p; p]
          /\ returned t' = [parse_json_lines text1; parse_json_lines text2]
          /\ jsonCache (sess t') !! p = Some (parse_json_lines text2)).
Proof.
  intros Hp Hmiss Hnet first later.
  assert (first = ({| jsonCache := <[p := parse_json_lines text]> (jsonCache s);
                      fetchLog := fetchLog s ++ [p];
                      parseLog := parseLog s ++ [p] |}, parse_json_lines text))
    as Efirst.
  { unfold first, loadHospitalJSON.
    now rewrite (load_start_miss _ _ Hp Hmiss), Hnet. }
  assert (jsonCache first.1 !! p = Some first.2) as Hc.
  { rewrite Efirst. simpl. apply lookup_insert_eq. }
  destruct (load_each_keeps net calls first.1 p first.2 Hp Hc)
    as (K1 & K2 & K3 & K4).
  fold later in K1, K2, K3, K4.
  split; [now rewrite Efirst|].
  split; [exact K1|].
  split; [|split; [|split; [exact K4|split; [|split; [|split]]]]].
  - rewrite K2, Efirst. simpl. rewrite count_occ_snoc.
    destruct (string_dec p p); [lia | congruence].
  - rewrite K3, Efirst. simpl. rewrite count_occ_snoc.
    destruct (string_dec p p); [lia | congruence].
  - intros calls' q.
    assert (parsed_once empty_session) as H0.
    { intros x. simpl. now rewrite lookup_empty. }
    rewrite (load_each_parsed_once net calls' _ H0 q).
    destruct (jsonCache _ !! q); lia.
  - intros s' jsonData. now apply load_start_cached.
  - intros es t' Hrun. eapply run_keeps_cached; [exact Hrun|].
    simpl. rewrite Hc. eauto.
  - intros text1 text2. cbn [run step idle sess inflight returned].
    rewrite (load_start_miss _ _ Hp Hmiss).
    cbn [run step sess inflight returned].
    rewrite load_start_miss by (cbn [jsonCache]; auto).
    cbn [run step sess inflight returned remove_first Datatypes.app
           load_finish fetchLog parseLog jsonCache].
    repeat (rewrite String.eqb_refl;
            cbn [run step sess inflight returned remove_first Datatypes.app
                   load_finish fetchLog parseLog jsonCache]).
    eexists. split; [reflexivity|].
    cbn [sess returned fetchLog parseLog jsonCache Datatypes.app].
    rewrite <- !app_assoc. cbn [Datatypes.app].
    repeat split. apply lookup_insert_eq.
Qed.

(** C5.  When the fetch of an uncached path fails (rejection or a status
    that is not a success), the call returns the empty sequence and leaves
    the cache as it was, so that the next call for the path issues a fetch
    again; whenever a response is a failure the resumed call changes nothing
    in the session; and an empty or missing path returns the empty sequence
    with the session, its fetch log included, untouched. *)
Theorem failed_load_not_cached (net : network) (s : session) :
  (forall p,
     p <> "" ->
     jsonCache s !! p = None ->
     failed (net (length (fetchLog s)) (jsonUrl p)) ->
     let call := loadHospitalJSON net s (Some p) in
     call.2 = []
     /\ jsonCache call.1 = jsonCache s
     /\ parseLog call.1 = parseLog s
     /\ fetchLog call.1 = fetchLog s ++ [p]
     /\ forall net',
          fetchLog (loadHospitalJSON net' call.1 (Some p)).1
          = fetchLog s ++ [p; p])
  /\ (forall p resp, failed resp -> load_finish s p resp = (s, []))
  /\ loadHospitalJSON net s None = (s, [])
  /\ loadHospitalJSON net s (Some "") = (s, []).
Proof.
  split; [|split; [|split; reflexivity]].
  - intros p Hp Hmiss Hfail call.
    assert (call = ({| jsonCache := jsonCache s; fetchLog := fetchLog s ++ [p];
                       parseLog := parseLog s |}, [])) as Ecall.
    { unfold call, loadHospitalJSON.
      now rewrite (load_start_miss _ _ Hp Hmiss), (load_finish_failed _ _ _ Hfail). }
    rewrite Ecall. simpl. repeat split. intros net'.
    unfold loadHospitalJSON. rewrite load_start_miss by assumption. simpl.
    rewrite <- app_assoc. simpl.
    now destruct (net' _ _) as [|[|] text'].
  - intros p resp. apply load_finish_failed.
Qed.


(** ** Query *)

Lemma sort_insert_perm {A : Type} (cmp : A -> A -> number) (x : A) (l : list A) :
  Permutation (sort_insert cmp x l) (x :: l).
Proof.
  induction l as [|y l IH]; simpl; [reflexivity|].
  destruct (Ngt (cmp x y) Nzero); [|reflexivity].
  rewrite IH. apply perm_swap.
Qed.

Lemma Array_sort_perm {A : Type} (cmp : A -> A -> number) (l : list A) :
  Permutation (Array_sort cmp l) l.
Proof.
  induction l as [|x l IH]; simpl; [reflexivity|].
  unfold Array_sort in *. simpl. rewrite sort_insert_perm. now constructor.
Qed.

Lemma Nsub_not_gt (x y : number) :
  x <> NaN -> y <> NaN -> Ngt (Nsub x y) Nzero = false -> Nle x y = true.
Proof.
  unfold Ngt, Nzero.
  destruct x as [| |p|], y as [| |q|]; simpl; try congruence.
  intros _ _ E.
  apply Qle_bool_iff. apply andb_false_iff in E as [E | E].
  - assert (~ (0 <= p - q)%Q) as Hn.
    { intros Hle. apply Qle_bool_iff in Hle. congruence. }
    lra.
  - apply negb_false_iff, Qeq_bool_iff in E. lra.
Qed.

Lemma Nsub_gt (x y : number) :
  Ngt (Nsub x y) Nzero = true -> Nle y x = true.
Proof.
  unfold Ngt, Nzero.
  destruct x as [| |p|], y as [| |q|]; simpl; try congruence; try reflexivity.
  intros E. apply andb_true_iff in E as [E _].
  apply Qle_bool_iff in E. apply Qle_bool_iff. lra.
Qed.

Lemma estimated_key_not_NaN (r : record) : estimated_key r <> NaN.
Proof. apply Nor_zero_not_NaN. Qed.

Lemma HdRel_sort_insert (x y : record) (l : list record) :
  Nle (estimated_key y) (estimated_key x) = true ->
  HdRel (fun u v => Nle (estimated_key u) (estimated_key v) = true) y l ->
  HdRel (fun u v => Nle (estimated_key u) (estimated_key v) = true) y
        (sort_insert by_estimated_amount x l).
Proof.
  intros Hyx Hd. destruct l as [|z l]; simpl; [now constructor|].
  destruct (Ngt (by_estimated_amount x z) Nzero).
  - constructor. now inversion Hd.
  - now constructor.
Qed.

Lemma sort_insert_sorted (x : record) (l : list record) :
  nondecreasing_by estimated_key l ->
  nondecreasing_by estimated_key (sort_insert by_estimated_amount x l).
Proof.
  unfold nondecreasing_by. induction 1 as [|y l Hs IH Hd]; simpl.
  - repeat constructor.
  - destruct (Ngt (by_estimated_amount x y) Nzero) eqn:E.
    + constructor; [exact IH|].
      apply HdRel_sort_insert; [|exact Hd]. now apply Nsub_gt.
    + constructor; [now constructor|]. constructor.
      apply Nsub_not_gt; auto using estimated_key_not_NaN.
Qed.

Lemma Array_sort_sorted (l : list record) :
  nondecreasing_by estimated_key (Array_sort by_estimated_amount l).
Proof.
  induction l as [|x l IH]; simpl; [constructor|].
  now apply sort_insert_sorted.
Qed.

Lemma worker_hits_cases (a : app) (net : network) (s : session)
    (searchPattern : string) (selectedPayer : option string) (h : hospital) :
  (worker_hits a net s searchPattern selectedPayer h = (s, [])
   /\ (searchPattern = "" \/ json_path h = ""))
  \/ (searchPattern <> "" /\ json_path h <> ""
      /\ worker_hits a net s searchPattern selectedPayer h
         = ((loadHospitalJSON net s (Some (json_path h))).1,
            query_loaded a (loadHospitalJSON net s (Some (json_path h))).2
              searchPattern selectedPayer)).
Proof.
  unfold worker_hits, queryHospitalJSON, no_path.
  destruct (String.eqb_spec searchPattern "") as [->|Hs]; [left; auto|].
  destruct (String.eqb_spec (json_path h) "") as [->|Hj]; [left; auto|].
  right. simpl. now destruct (loadHospitalJSON net s (Some (json_path h))).
Qed.

(** Whatever data the load has returned, the part of the query that
    follows it caps and sorts. *)
Lemma query_loaded_capped_sorted (a : app) (jsonData : list record)
    (regexOrCode : string) (selectedPayer : option string) :
  let hits := query_loaded a jsonData regexOrCode selectedPayer in
  length hits <= 50
  /\ nondecreasing_by estimated_key hits
  /\ (forall regex,
        RegExp_new regexOrCode = Some regex ->
        hits = Array_sort by_estimated_amount
                 (firstn 50 (all_matches a regex selectedPayer jsonData))
        /\ Permutation hits
             (firstn 50 (all_matches a regex selectedPayer jsonData))).
Proof.
  unfold query_loaded.
  destruct (RegExp_new regexOrCode) as [regex|]; cbv zeta.
  - split; [|split].
    + rewrite (Permutation_length (Array_sort_perm _ _)).
      apply firstn_le_length.
    + apply Array_sort_sorted.
    + intros regex' [= <-]. split; [reflexivity|]. apply Array_sort_perm.
  - split; [simpl; lia|]. split; [constructor|]. intros regex [=].
Qed.

(** C2, as the code has it.  The hit list of a hospital has at most 50
    records and is non-decreasing by the estimated amount alone
    ([parseFloat(estimated_amount)], 0 when that is missing, not numeric or
    zero; the other price fields are not consulted); it is the stable sort
    of the first 50 matches in file order, hence a permutation of them. *)
Theorem hits_capped_and_sorted (a : app) (net : network) (s : session)
    (searchPattern : string) (selectedPayer : option string) (h : hospital) :
  let hits := (worker_hits a net s searchPattern selectedPayer h).2 in
  let jsonData := (loadHospitalJSON net s (Some (json_path h))).2 in
  length hits <= 50
  /\ nondecreasing_by estimated_key hits
  /\ (forall regex,
        searchPattern <> "" ->
        json_path h <> "" ->
        RegExp_new searchPattern = Some regex ->
        hits = Array_sort by_estimated_amount
                 (firstn 50 (all_matches a regex selectedPayer jsonData))
        /\ Permutation hits
             (firstn 50 (all_matches a regex selectedPayer jsonData))
        /\ all_matches a regex selectedPayer jsonData
           = List.filter
               (fun r => matchesRegex regex (getSearchCodeField a) r
                         && matchesPayer selectedPayer r) jsonData).
Proof.
  intros hits jsonData. subst hits jsonData.
  destruct (worker_hits_cases a net s searchPattern selectedPayer h)
    as [[-> Hempty] | (Hs & Hj & ->)]; cbn [fst snd].
  - split; [simpl; lia|]. split; [constructor|]. intros regex Hs Hj. tauto.
  - destruct (query_loaded_capped_sorted a
                (loadHospitalJSON net s (Some (json_path h))).2
                searchPattern selectedPayer) as (L & S & P).
    split; [exact L|]. split; [exact S|].
    intros regex _ _ E. destruct (P regex E) as [P1 P2]. auto.
Qed.

(** [go] gives up before the search only for an unknown ZIP or an empty
    hospital table; the pattern plays no part in it. *)
Lemma go_abort_iff (a : app) (t : tables) (c : controls) :
  (exists status, go a t c = Abort status)
  <-> ZIP t !! go_zip c = None \/ hospitals t = [].
Proof.
  unfold go. destruct (ZIP t !! go_zip c) as [[la lo]|].
  - destruct (hospitals t); split.
    + auto.
    + eauto.
    + destruct (go_nearby _ _ _); intros [status [=]].
    + intros [[=] | [=]].
  - split; eauto.
Qed.


(** The payer test, spelled out: it holds when no payer is selected, or
    when the record's [payer_name] is the very string selected. *)
Lemma matchesPayer_exact (selectedPayer : option string) (r : record) :
  matchesPayer selectedPayer r = true
  <-> no_payer selectedPayer = true
      \/ exists p, selectedPayer = Some p /\ p <> ""
                   /\ get r "payer_name" = Str p.
Proof.
  unfold matchesPayer.
  destruct (no_payer selectedPayer) eqn:En; simpl; [tauto|].
  destruct selectedPayer as [p|]; [|discriminate]. simpl in En.
  apply String.eqb_neq in En. split.
  - intros E. right. apply andb_true_iff in E as [_ E].
    destruct (get r "payer_name"); try discriminate.
    apply String.eqb_eq in E as ->. eauto.
  - intros [[=] | (p' & [= <-] & _ & ->)]. simpl.
    rewrite String.eqb_refl, andb_true_r.
    apply negb_true_iff. now apply String.eqb_neq.
Qed.


(** ** Further properties of the query *)

Lemma Nle_trans (a b c : number) :
  Nle a b = true -> Nle b c = true -> Nle a c = true.
Proof.
  destruct a as [| |x|], b as [| |y|], c as [| |z|]; simpl;
    try congruence; try reflexivity.
  rewrite !Qle_bool_iff. intros. lra.
Qed.

Lemma Nsub_gt_strict (x y : number) :
  Ngt (Nsub x y) Nzero = true -> Nle x y = false.
Proof.
  unfold Ngt, Nzero.
  destruct x as [| |p|], y as [| |q|]; simpl; try congruence; try reflexivity.
  intros E. apply andb_true_iff in E as [E1 E2].
  apply Qle_bool_iff in E1. apply negb_true_iff in E2.
  destruct (Qle_bool p q) eqn:Hle; [|reflexivity].
  apply Qle_bool_iff in Hle.
  assert (Qeq_bool 0 (p - q) = true) by (apply Qeq_bool_iff; lra).
  congruence.
Qed.

Lemma filter_sort_insert {A : Type} (cmp : A -> A -> number) (keep : A -> bool)
    (x : A) (l : list A) :
  (forall y, In y l -> Ngt (cmp x y) Nzero = true ->
             keep x = true -> keep y = true -> False) ->
  List.filter keep (sort_insert cmp x l) = List.filter keep (x :: l).
Proof.
  induction l as [|y l IH]; intros Hapart; [reflexivity|].
  cbn [sort_insert]. destruct (Ngt (cmp x y) Nzero) eqn:E; [|reflexivity].
  cbn [List.filter]. rewrite IH by (intros z Hz; apply Hapart; now right).
  cbn [List.filter].
  destruct (keep x) eqn:Kx, (keep y) eqn:Ky; try reflexivity.
  exfalso. apply (Hapart y); auto. now left.
Qed.

Lemma in_firstn {A : Type} (n : nat) (l : list A) (x : A) :
  In x (firstn n l) -> In x l.
Proof.
  intros Hin. rewrite <- (firstn_skipn n l). apply in_or_app. now left.
Qed.

Lemma filter_implies_sublist {A : Type} (f g : A -> bool) (l : list A) :
  (forall x, In x l -> f x = true -> g x = true) ->
  sublist (List.filter f l) (List.filter g l).
Proof.
  induction l as [|x l IH]; intros Himp; simpl; [constructor|].
  assert (sublist (List.filter f l) (List.filter g l)) as IH'
    by (apply IH; intros y Hy; apply Himp; now right).
  destruct (f x) eqn:Fx.
  - rewrite (Himp x (or_introl eq_refl) Fx). now constructor.
  - destruct (g x); [now constructor | exact IH'].
Qed.

(** X1.  The sort of the hits is stable: among the records whose sort key
    ([parseFloat(estimated_amount) || 0]) equals a given number, the order
    after the sort is the order before it, so hits with equal estimated
    amounts stay in file order. *)
Theorem hits_ties_keep_file_order (z : number) :
  (forall l : list record,
     List.filter (fun r => Nle (estimated_key r) z && Nle z (estimated_key r))
       (Array_sort by_estimated_amount l)
     = List.filter (fun r => Nle (estimated_key r) z && Nle z (estimated_key r)) l)
  /\ (forall a jsonData regexOrCode selectedPayer regex,
        RegExp_new regexOrCode = Some regex ->
        List.filter (fun r => Nle (estimated_key r) z && Nle z (estimated_key r))
          (query_loaded a jsonData regexOrCode selectedPayer)
        = List.filter (fun r => Nle (estimated_key r) z && Nle z (estimated_key r))
            (firstn 50 (all_matches a regex selectedPayer jsonData))).
Proof.
  assert (forall l : list record,
     List.filter (fun r => Nle (estimated_key r) z && Nle z (estimated_key r))
       (Array_sort by_estimated_amount l)
     = List.filter (fun r => Nle (estimated_key r) z && Nle z (estimated_key r)) l)
    as Hstable.
  { induction l as [|x l IH]; [reflexivity|].
    unfold Array_sort in *. cbn [foldr].
    rewrite filter_sort_insert.
    - cbn [List.filter]. now rewrite IH.
    - intros y _ Hgt Kx Ky.
      apply andb_true_iff in Kx as [Kx1 Kx2].
      apply andb_true_iff in Ky as [Ky1 Ky2].
      apply Nsub_gt_strict in Hgt.
      rewrite (Nle_trans _ _ _ Kx1 Ky2) in Hgt. discriminate. }
  split; [exact Hstable|].
  intros a jsonData regexOrCode selectedPayer regex E.
  unfold query_loaded. rewrite E. apply Hstable.
Qed.

(** X2.  What a hit list holds: a record is a hit exactly when it is among
    the first 50 matches of the file; every hit is a record of the file that
    passes the pattern test and the payer test, and when a payer is selected
    its [payer_name] is that very string; when the file has at most 50
    matches every match is a hit. *)
Theorem hits_are_the_first_matches (a : app) (jsonData : list record)
    (regexOrCode : string) (selectedPayer : option string) (regex : RegExp) :
  RegExp_new regexOrCode = Some regex ->
  let hits := query_loaded a jsonData regexOrCode selectedPayer in
  (forall r, In r hits
             <-> In r (firstn 50 (all_matches a regex selectedPayer jsonData)))
  /\ (forall r, In r hits ->
        In r jsonData
        /\ matchesRegex regex (getSearchCodeField a) r = true
        /\ matchesPayer selectedPayer r = true)
  /\ (forall r p, In r hits -> selectedPayer = Some p -> p <> "" ->
        get r "payer_name" = Str p)
  /\ (length (all_matches a regex selectedPayer jsonData) <= 50 ->
      forall r, In r jsonData ->
                matchesRegex regex (getSearchCodeField a) r = true ->
                matchesPayer selectedPayer r = true ->
                In r hits).
Proof.
  intros E hits.
  assert (Permutation hits (firstn 50 (all_matches a regex selectedPayer jsonData)))
    as Hperm.
  { unfold hits, query_loaded. rewrite E. apply Array_sort_perm. }
  assert (forall r, In r hits ->
            In r jsonData
            /\ matchesRegex regex (getSearchCodeField a) r = true
            /\ matchesPayer selectedPayer r = true) as Hsound.
  { intros r Hin. apply (Permutation_in _ Hperm), in_firstn in Hin.
    unfold all_matches in Hin. apply filter_In in Hin as [Hin Hm].
    apply andb_true_iff in Hm as [Hm1 Hm2]. auto. }
  split; [|split; [exact Hsound|split]].
  - intros r. split; apply Permutation_in; [exact Hperm | now symmetry].
  - intros r p Hin -> Hp. destruct (Hsound r Hin) as (_ & _ & Hpay).
    apply matchesPayer_exact in Hpay as [Hno | (p' & [= <-] & _ & Hget)];
      [|exact Hget].
    simpl in Hno. apply String.eqb_eq in Hno. contradiction.
  - intros Hlen r Hin Hm1 Hm2.
    apply (Permutation_in _ (Permutation_sym Hperm)).
    rewrite firstn_all2 by exact Hlen.
    unfold all_matches. apply filter_In. split; [exact Hin|].
    now rewrite Hm1, Hm2.
Qed.

Lemma go_nearby_nan (hs : list hospital) (center : value * value)
    (nearby : list hospital) :
  go_nearby hs center NaN = Some nearby -> nearby = [].
Proof.
  unfold go_nearby. cbn [Nge Nle].
  destruct (geoCircle_drawn _ _); [|discriminate]. intros [= <-].
  induction hs as [|h hs IH]; [reflexivity|]. cbn [List.filter].
  replace (Nle (gcMiles center (ll h)) NaN) with false
    by (now destruct (gcMiles center (ll h))).
  now rewrite andb_false_r.
Qed.

Lemma go_nearby_grows (hs : list hospital) (center : value * value)
    (r1 r2 : number) (n1 n2 : list hospital) :
  Nle r1 r2 = true ->
  go_nearby hs center r1 = Some n1 ->
  go_nearby hs center r2 = Some n2 ->
  sublist n1 n2.
Proof.
  intros Hle. unfold go_nearby.
  destruct (Nge r1 (Finite 500)) eqn:G1.
  - unfold Nge in *. rewrite (Nle_trans _ _ _ G1 Hle).
    now intros [= <-] [= <-].
  - destruct (geoCircle_drawn center (miles2deg r1)); [|discriminate].
    intros [= <-]. destruct (Nge r2 (Finite 500)).
    + intros [= <-]. apply filter_implies_sublist. intros h _ Hf.
      now apply andb_true_iff in Hf as [Hf _].
    + destruct (geoCircle_drawn center (miles2deg r2)); [|discriminate].
      intros [= <-]. apply filter_implies_sublist. intros h _ Hf.
      apply andb_true_iff in Hf as [Hf Hd]. rewrite Hf.
      now rewrite (Nle_trans _ _ _ Hd Hle).
Qed.

(** When [go] goes on to the search, the centre is the entry of the ZIP,
    turned into [[lon, lat]], and the candidates are those of the filter. *)
Lemma go_proceed_nearby (a : app) (t : tables) (c : controls)
    (center : value * value) (nearby : list hospital) (searchPattern : string)
    (selectedPayer : option string) :
  go a t c = Proceed center nearby searchPattern selectedPayer ->
  exists zlat zlon,
    ZIP t !! go_zip c = Some (zlat, zlon)
    /\ center = (zlon, zlat)
    /\ go_nearby (hospitals t) center (go_miles c) = Some nearby.
Proof.
  unfold go. destruct (ZIP t !! go_zip c) as [[la lo]|]; [|discriminate].
  destruct (hospitals t) as [|h0 hs]; [discriminate|].
  destruct (go_nearby _ _ _) as [n|] eqn:E; [|discriminate].
  intros [= <- <- _ _]. eauto.
Qed.

(** X3.  Widening the radius never loses a hospital: of two searches for
    the same ZIP over the same tables that both get to the search, the one
    with the smaller radius has its candidates, in order, among those of the
    other (also across the switch to the show-all mode at 500).  A radius
    that is not a number never gives a candidate: [go] throws while the
    circle is drawn, or else its candidate list is empty. *)
Theorem nearby_grows_with_radius (a : app) (t : tables) (c1 c2 : controls) :
  (go_zip c1 = go_zip c2 ->
   Nle (go_miles c1) (go_miles c2) = true ->
   forall center1 nearby1 pattern1 payer1 center2 nearby2 pattern2 payer2,
     go a t c1 = Proceed center1 nearby1 pattern1 payer1 ->
     go a t c2 = Proceed center2 nearby2 pattern2 payer2 ->
     center1 = center2 /\ sublist nearby1 nearby2)
  /\ (go_miles c1 = NaN ->
      (exists status, go a t c1 = Abort status)
      \/ go a t c1 = Throw
      \/ exists center pattern payer, go a t c1 = Proceed center [] pattern payer).
Proof.
  split.
  - intros Hzip Hle center1 nearby1 pattern1 payer1 center2 nearby2 pattern2
      payer2 Hgo1 Hgo2.
    apply go_proceed_nearby in Hgo1 as (la1 & lo1 & Hz1 & -> & Hn1).
    apply go_proceed_nearby in Hgo2 as (la2 & lo2 & Hz2 & -> & Hn2).
    rewrite Hzip, Hz2 in Hz1. injection Hz1 as <- <-.
    split; [reflexivity|]. exact (go_nearby_grows _ _ _ _ _ _ Hle Hn1 Hn2).
  - intros Hnan. destruct (go a t c1) as [status| |center nearby p payer] eqn:E.
    + left. eauto.
    + right. now left.
    + right. right.
      destruct (go_proceed_nearby _ _ _ _ _ _ _ E) as (la & lo & _ & _ & Hn).
      rewrite Hnan in Hn. apply go_nearby_nan in Hn as ->. eauto.
Qed.


(** ** Price table and histogram *)

Lemma priceTypes_length (a : app) (r : record) :
  length (priceTypes a r) = length (hit_prices r).
Proof.
  unfold priceTypes, hit_prices. rewrite !length_app.
  destruct (not_nullish (get r "estimated_amount")),
    (not_nullish (get r "standard_charge_min")),
    (not_nullish (get r "standard_charge_max")); reflexivity.
Qed.

Lemma generatePriceTable_none (a : app) (r : record) :
  generatePriceTable a r = NoPricingData <-> priceTypes a r = [].
Proof.
  unfold generatePriceTable. destruct (priceTypes a r); split;
    intros E; try discriminate; reflexivity.
Qed.

Lemma priceTypes_nil (a : app) (r : record) :
  priceTypes a r = []
  <-> not_nullish (get r "estimated_amount") = false
      /\ not_nullish (get r "standard_charge_min") = false
      /\ not_nullish (get r "standard_charge_max") = false.
Proof.
  unfold priceTypes.
  destruct (not_nullish (get r "estimated_amount")),
    (not_nullish (get r "standard_charge_min")),
    (not_nullish (get r "standard_charge_max")); cbn; split;
    try discriminate; try tauto; intros (? & ? & ?); discriminate.
Qed.

Lemma formatPrice_price_NA (a : app) (amount code : value) :
  price (formatPrice a amount code) = "N/A" ->
  ratio (formatPrice a amount code) = "N/A".
Proof.
  destruct (truthy amount) eqn:Ht.
  - rewrite (formatPrice_truthy _ _ _ Ht). cbn. discriminate.
  - now rewrite (formatPrice_falsy _ _ _ Ht).
Qed.

Lemma generatePriceTable_fields (a : app) (r1 r2 : record) :
  get r1 "code" = get r2 "code" ->
  get r1 "estimated_amount" = get r2 "estimated_amount" ->
  get r1 "standard_charge_min" = get r2 "standard_charge_min" ->
  get r1 "standard_charge_max" = get r2 "standard_charge_max" ->
  generatePriceTable a r1 = generatePriceTable a r2.
Proof.
  intros E1 E2 E3 E4. unfold generatePriceTable, priceTypes, getCodeField.
  now rewrite E1, E2, E3, E4.
Qed.

(** X5.  The price table of a record says "no pricing data" exactly when
    its estimated amount, minimum and maximum are all missing or null (the
    dollar and gross charges are never shown, whatever they hold); otherwise
    it has one line per field present, at most three, in the order estimate,
    minimum, maximum, and no line carries a ratio without a price: a price
    of "N/A" always comes with a ratio of "N/A". *)
Theorem price_table_lines (a : app) (r : record) :
  (generatePriceTable a r = NoPricingData
   <-> not_nullish (get r "estimated_amount") = false
       /\ not_nullish (get r "standard_charge_min") = false
       /\ not_nullish (get r "standard_charge_max") = false)
  /\ length (priceTypes a r) <= 3
  /\ sublist (map row_type (priceTypes a r)) ["Estimate"; "Minimum"; "Maximum"]
  /\ (forall row, In row (priceTypes a r) ->
        row_price row = "N/A" -> row_ratio row = "N/A")
  /\ (forall v,
        generatePriceTable a (<["standard_charge_dollar" := v]> r)
        = generatePriceTable a r
        /\ generatePriceTable a (<["standard_charge_gross" := v]> r)
           = generatePriceTable a r).
Proof.
  split; [|split; [|split; [|split]]].
  - rewrite generatePriceTable_none. apply priceTypes_nil.
  - unfold priceTypes. rewrite !length_app.
    destruct (not_nullish (get r "estimated_amount")),
      (not_nullish (get r "standard_charge_min")),
      (not_nullish (get r "standard_charge_max")); cbn; lia.
  - unfold priceTypes.
    destruct (not_nullish (get r "estimated_amount")),
      (not_nullish (get r "standard_charge_min")),
      (not_nullish (get r "standard_charge_max")); cbn;
      repeat (first [apply sublist_nil | apply sublist_skip | apply sublist_cons]).
  - intros row Hin. unfold priceTypes in Hin.
    repeat (apply in_app_or in Hin as [Hin | Hin]);
      match type of Hin with
      | In _ (if not_nullish (get r ?f) then _ else _) =>
          destruct (not_nullish (get r f)); [|destruct Hin];
          destruct Hin as [<- | []]; cbn; apply formatPrice_price_NA
      end.
  - intros v. split; apply generatePriceTable_fields; unfold get;
      now rewrite lookup_insert_ne.
Qed.


Lemma hit_prices_le_3 (hit : record) : length (hit_prices hit) <= 3.
Proof.
  unfold hit_prices. rewrite !length_app.
  destruct (not_nullish (get hit "estimated_amount")),
    (not_nullish (get hit "standard_charge_min")),
    (not_nullish (get hit "standard_charge_max")); cbn; lia.
Qed.

(** X6.  The histogram and the price tables agree on what there is to
    show: the chart gives its "no price data" notice exactly when there are
    hits and every hit's table says "no pricing data", and otherwise it bins
    one value for every line of every table (a zero shown as "N/A" in the
    table is still counted, as 0). *)
Theorem histogram_counts_table_lines (a : app) (allHits : list record) :
  (createDistributionChart allHits = NoDataToDisplay <-> allHits = [])
  /\ (createDistributionChart allHits = NoPriceDataAvailable
      <-> allHits <> []
          /\ forall hit, In hit allHits ->
                         generatePriceTable a hit = NoPricingData)
  /\ (forall prices,
        createDistributionChart allHits = Histogram prices ->
        prices = flat_map hit_prices allHits
        /\ length prices = length (flat_map (priceTypes a) allHits)
        /\ length prices <= 3 * length allHits).
Proof.
  assert (forall l : list record,
            length (flat_map hit_prices l) = length (flat_map (priceTypes a) l))
    as Hlen.
  { induction l as [|x l IH]; [reflexivity|]. cbn [flat_map].
    now rewrite !length_app, IH, priceTypes_length. }
  assert (forall l : list record,
            flat_map hit_prices l = []
            <-> forall hit, In hit l -> generatePriceTable a hit = NoPricingData)
    as Hnil.
  { induction l as [|x l IH]; cbn [flat_map].
    - split; [intros _ hit [] | reflexivity].
    - split.
      + intros E. apply app_eq_nil in E as [Ex El].
        intros hit [<- | Hin]; [|now apply IH].
        apply generatePriceTable_none. apply length_zero_iff_nil.
        now rewrite priceTypes_length, Ex.
      + intros Hall.
        assert (hit_prices x = []) as ->.
        { apply length_zero_iff_nil. rewrite <- (priceTypes_length a).
          apply length_zero_iff_nil, generatePriceTable_none, Hall. now left. }
        apply IH. intros hit Hin. apply Hall. now right. }
  assert (forall l : list record,
            length (flat_map (priceTypes a) l) <= 3 * length l) as Hbound.
  { induction l as [|x l IH]; [cbn; lia|]. cbn [flat_map length].
    rewrite length_app, priceTypes_length.
    pose proof (hit_prices_le_3 x). lia. }
  unfold createDistributionChart.
  destruct allHits as [|hit0 rest]; [|set (hits := hit0 :: rest) in *].
  - split; [tauto|]. split; [split; [discriminate | tauto]|]. discriminate.
  - destruct (flat_map hit_prices hits) as [|p ps] eqn:E.
    + split; [split; discriminate|]. split; [|discriminate].
      split; [intros _|reflexivity]. split; [discriminate|]. now apply Hnil.
    + split; [split; discriminate|]. split.
      * split; [discriminate|]. intros [_ Hall]. apply Hnil in Hall.
        rewrite Hall in E. discriminate.
      * intros prices [= <-]. split; [reflexivity|].
        rewrite <- E. split; [apply Hlen|]. rewrite Hlen. apply Hbound.
Qed.


(** ** Tables loaded at start-up *)

Lemma foldl_insert_lookup {A V : Type} (key : A -> string) (val : A -> V)
    (rows : list A) (m0 : gmap string V) (k : string) (v : V) :
  foldl (fun m d => <[key d := val d]> m) m0 rows !! k = Some v ->
  m0 !! k = Some v \/ exists d, In d rows /\ key d = k /\ val d = v.
Proof.
  revert m0. induction rows as [|d rows IH]; intros m0 Hl; [now left|].
  cbn [foldl] in Hl. apply IH in Hl as [Hl | (d' & Hin & Hk & Hv)].
  - destruct (decide (key d = k)) as [E|E].
    + rewrite E, lookup_insert_eq in Hl. injection Hl as <-.
      right. exists d. repeat split; [now left | exact E].
    + rewrite lookup_insert_ne in Hl by exact E. now left.
  - right. exists d'. repeat split; [now right | exact Hk | exact Hv].
Qed.

Lemma foldl_insert_last {A V : Type} (key : A -> string) (val : A -> V)
    (pre post : list A) (d : A) (m0 : gmap string V) :
  (forall d', In d' post -> key d' <> key d) ->
  foldl (fun m d => <[key d := val d]> m) m0 (pre ++ d :: post) !! key d
  = Some (val d).
Proof.
  intros Hlater. rewrite foldl_app. cbn [foldl].
  set (m1 := <[key d := val d]> (foldl _ m0 pre)).
  assert (m1 !! key d = Some (val d)) as H1 by apply lookup_insert_eq.
  clearbody m1. revert m1 H1.
  induction post as [|d' post IH]; intros m1 H1; [exact H1|].
  cbn [foldl]. apply IH.
  - intros d'' Hin. apply Hlater. now right.
  - rewrite lookup_insert_ne; [exact H1|]. apply Hlater. now left.
Qed.

Lemma string_length_chars (s : string) :
  String.length s = length (list_ascii_of_string s).
Proof.
  rewrite <- (string_of_list_ascii_of_string s) at 1.
  apply length_string_of_list_ascii.
Qed.

Lemma padStart_length (n : nat) (c : ascii) (s : string) :
  String.length (padStart n c s) = Nat.max n (String.length s).
Proof.
  unfold padStart.
  now rewrite length_string_of_list_ascii, padStart_list_length,
    string_length_chars.
Qed.

Lemma go_zip_length (c : controls) : String.length (go_zip c) = 5.
Proof.
  rewrite string_length_chars, go_zip_chars. unfold slice_last_list.
  rewrite length_skipn, padStart_list_length. lia.
Qed.

Lemma go_zip_short (c : controls) :
  String.length (trim (zip_value c)) <= 5 ->
  go_zip c = padStart 5 "0"%char (trim (zip_value c)).
Proof.
  intros Hlen. rewrite <- (string_of_list_ascii_of_string (go_zip c)).
  rewrite go_zip_chars. unfold slice_last_list, padStart.
  rewrite padStart_list_length, <- string_length_chars.
  replace (Nat.max 5 (String.length (trim (zip_value c))) - 5) with 0 by lia.
  reflexivity.
Qed.

(** X7.  The Medicare table [loadMedicareRates] builds never holds a NaN:
    each rate is the numeric price of a row with that code, or 0 when the
    price is missing, not numeric or zero, and the last row of a code
    decides.  With that table, [formatPrice] shows a ratio for a code exactly
    when the deciding row's price is strictly positive, and "N/A"
    otherwise; when the file could not be loaded every ratio is "N/A". *)
Theorem medicare_rates_loaded (cmsRows : option (list record)) :
  (forall code rate,
     loadMedicareRates cmsRows !! code = Some rate ->
     rate <> NaN
     /\ exists rows r,
          cmsRows = Some rows /\ In r rows
          /\ ToString (get r "code") = code
          /\ rate = Nor (ToNumber (get r "price")) Nzero)
  /\ (forall a pre r post amount code,
        cmsRows = Some (pre ++ r :: post) ->
        (forall r', In r' post ->
                    ToString (get r' "code") <> ToString (get r "code")) ->
        cmsRate a = loadMedicareRates cmsRows ->
        ToString code = ToString (get r "code") ->
        truthy code = true ->
        truthy amount = true ->
        ratio (formatPrice a amount code)
        = if Ngt (ToNumber (get r "price")) Nzero
          then toFixed (Ndiv (ToNumber amount) (ToNumber (get r "price"))) 2
               +:+ "x"
          else "N/A")
  /\ (forall a amount code,
        cmsRows = None ->
        cmsRate a = loadMedicareRates cmsRows ->
        ratio (formatPrice a amount code) = "N/A").
Proof.
  split; [|split].
  - intros code rate Hl. destruct cmsRows as [rows|]; cbn in Hl;
      [|rewrite lookup_empty in Hl; discriminate].
    apply (foldl_insert_lookup (fun r => ToString (get r "code"))
             (fun r => Nor (ToNumber (get r "price")) Nzero)) in Hl
      as [Hl | (r & Hin & Hk & Hv)];
      [rewrite lookup_empty in Hl; discriminate|].
    split; [rewrite <- Hv; apply Nor_zero_not_NaN|].
    exists rows, r. auto.
  - intros a pre r post amount code -> Hlater Hrate Hcode Hc Ha.
    rewrite (formatPrice_truthy _ _ _ Ha). cbn [ratio].
    rewrite Hc, Hrate, Hcode. cbn [loadMedicareRates].
    rewrite (foldl_insert_last (fun r => ToString (get r "code"))
               (fun r => Nor (ToNumber (get r "price")) Nzero)
               pre post r ∅ Hlater).
    destruct (Ngt (ToNumber (get r "price")) Nzero) eqn:Egt.
    + now rewrite (Nor_truthy _ _ (Ngt_zero_truthy _ Egt)), Egt.
    + unfold Nor. destruct (Ntruthy _); [now rewrite Egt | reflexivity].
  - intros a amount code -> Hrate.
    destruct (truthy amount) eqn:Ha.
    + rewrite (formatPrice_truthy _ _ _ Ha). cbn [ratio].
      rewrite Hrate. cbn [loadMedicareRates]. rewrite lookup_empty.
      now destruct (truthy code).
    + now rewrite (formatPrice_falsy _ _ _ Ha).
Qed.

(** X8.  Every key of the ZIP table [loadZipData] builds has at least five
    characters, and [go] only ever looks up keys of exactly five: a row whose
    ZIP prints with more than five characters can never be found, while a
    row whose ZIP prints with at most five (leading zeros lost in parsing
    included) is found by entering it as it prints, with any surrounding
    white space, provided no later row has the same key. *)
Theorem zip_rows_found_by_go (zipRows : option (list record)) :
  (forall k v, loadZipData zipRows !! k = Some v -> 5 <= String.length k)
  /\ (forall c k, 5 < String.length k -> go_zip c <> k)
  /\ (forall pre d post c,
        zipRows = Some (pre ++ d :: post) ->
        (forall d', In d' post ->
           padStart 5 "0"%char (ToString (get d' "zip"))
           <> padStart 5 "0"%char (ToString (get d "zip"))) ->
        trim (zip_value c) = ToString (get d "zip") ->
        String.length (ToString (get d "zip")) <= 5 ->
        loadZipData zipRows !! go_zip c = Some (get d "lat", get d "lon")).
Proof.
  split; [|split].
  - intros k v Hl. destruct zipRows as [rows|]; cbn in Hl;
      [|rewrite lookup_empty in Hl; discriminate].
    apply (foldl_insert_lookup
             (fun d => padStart 5 "0"%char (ToString (get d "zip")))
             (fun d => (get d "lat", get d "lon"))) in Hl
      as [Hl | (d & _ & <- & _)];
      [rewrite lookup_empty in Hl; discriminate|].
    rewrite padStart_length. lia.
  - intros c k Hlen <-. rewrite go_zip_length in Hlen. lia.
  - intros pre d post c -> Hlater Htrim Hlen.
    rewrite go_zip_short by (rewrite Htrim; exact Hlen). rewrite Htrim.
    cbn [loadZipData].
    apply (foldl_insert_last
             (fun d => padStart 5 "0"%char (ToString (get d "zip")))
             (fun d => (get d "lat", get d "lon")) pre post d ∅ Hlater).
Qed.

(** X9.  [renderHospitals] looks the entered ZIP up as typed (trimmed only,
    not zero-padded).  With the table of [loadZipData], an entry of fewer
    than five characters is therefore never found there: the cards stay in
    the order given and carry no distance, although [go] has found the same
    entry, zero-padded, whenever the table has that row. *)
Theorem cards_for_short_zip (zipRows : option (list record)) (c : controls)
    (hlist : list hospital) :
  String.length (trim (zip_value c)) < 5 ->
  let ZIP := loadZipData zipRows in
  sortedHospitals ZIP (zip_value c) hlist = hlist
  /\ (forall h, distanceText ZIP (zip_value c) h = "")
  /\ (forall pre d post,
        zipRows = Some (pre ++ d :: post) ->
        (forall d', In d' post ->
           padStart 5 "0"%char (ToString (get d' "zip"))
           <> padStart 5 "0"%char (ToString (get d "zip"))) ->
        trim (zip_value c) = ToString (get d "zip") ->
        ZIP !! go_zip c = Some (get d "lat", get d "lon")
        /\ ZIP !! trim (zip_value c) = None).
Proof.
  intros Hlen ZIP.
  assert (ZIP !! trim (zip_value c) = None) as Hnone.
  { destruct (ZIP !! trim (zip_value c)) as [v|] eqn:Hl; [|reflexivity].
    unfold ZIP in Hl. destruct zipRows as [rows|]; cbn in Hl;
      [|rewrite lookup_empty in Hl; discriminate].
    apply (foldl_insert_lookup
             (fun d => padStart 5 "0"%char (ToString (get d "zip")))
             (fun d => (get d "lat", get d "lon"))) in Hl
      as [Hl | (d & _ & Hk & _)];
      [rewrite lookup_empty in Hl; discriminate|].
    rewrite <- Hk, padStart_length in Hlen. lia. }
  split; [|split].
  - unfold sortedHospitals. rewrite Hnone.
    now destruct (String.eqb (trim (zip_value c)) "").
  - intros h. unfold distanceText. rewrite Hnone.
    now destruct (String.eqb (trim (zip_value c)) "").
  - intros pre d post -> Hlater Htrim. split; [|exact Hnone].
    unfold ZIP. rewrite go_zip_short by lia. rewrite Htrim. cbn [loadZipData].
    apply (foldl_insert_last
             (fun d => padStart 5 "0"%char (ToString (get d "zip")))
             (fun d => (get d "lat", get d "lon")) pre post d ∅ Hlater).
Qed.


(** ** Cards in order of distance *)

Lemma sort_insert_by_key_sorted {A : Type} (key : A -> number) (x : A)
    (l : list A) :
  key x <> NaN ->
  Forall (fun y => key y <> NaN) l ->
  Sorted (fun u v => Nle (key u) (key v) = true) l ->
  Sorted (fun u v => Nle (key u) (key v) = true)
         (sort_insert (fun u v => Nsub (key u) (key v)) x l).
Proof.
  intros Hx Hl Hs. induction Hs as [|y l Hs IH Hd]; cbn [sort_insert].
  - repeat constructor.
  - apply Forall_cons in Hl as [Hy Hl].
    destruct (Ngt (Nsub (key x) (key y)) Nzero) eqn:E.
    + constructor; [now apply IH|].
      destruct l as [|z l]; cbn [sort_insert].
      * constructor. now apply Nsub_gt.
      * destruct (Ngt (Nsub (key x) (key z)) Nzero).
        -- constructor. now inversion Hd.
        -- constructor. now apply Nsub_gt.
    + constructor; [now constructor|]. constructor.
      now apply Nsub_not_gt.
Qed.

Lemma Array_sort_by_key_sorted {A : Type} (key : A -> number) (l : list A) :
  Forall (fun y => key y <> NaN) l ->
  Sorted (fun u v => Nle (key u) (key v) = true)
         (Array_sort (fun u v => Nsub (key u) (key v)) l).
Proof.
  induction l as [|x l IH]; intros Hl; [constructor|].
  apply Forall_cons in Hl as [Hx Hl].
  unfold Array_sort in *. cbn [foldr].
  apply sort_insert_by_key_sorted; [exact Hx | | now apply IH].
  rewrite List.Forall_forall in *. intros y Hy. apply Hl.
  apply (Permutation_in _ (Array_sort_perm (fun u v => Nsub (key u) (key v)) l)).
  exact Hy.
Qed.

Lemma StronglySorted_suffix {A : Type} (R : A -> A -> Prop) (l1 l2 : list A) :
  StronglySorted R (l1 ++ l2) -> StronglySorted R l2.
Proof.
  induction l1 as [|x l1 IH]; intros Hs; [exact Hs|].
  apply IH. now apply StronglySorted_inv in Hs as [Hs _].
Qed.

Lemma sortedHospitals_perm (ZIP : gmap string (value * value))
    (zip_value : string) (hlist : list hospital) :
  Permutation (sortedHospitals ZIP zip_value hlist) hlist.
Proof.
  unfold sortedHospitals. destruct (String.eqb (trim zip_value) ""); [reflexivity|].
  destruct (ZIP !! trim zip_value) as [[zipLat zipLon]|]; [|reflexivity].
  destruct (isFinite zipLat && isFinite zipLon); [|reflexivity].
  apply Array_sort_perm.
Qed.

Lemma card_distance_cases (zipLat zipLon : value) (h : hospital) :
  card_distance zipLat zipLon h
  = if located h then great_circle_miles (zipLon, zipLat) h else PosInfinity.
Proof.
  unfold card_distance, located, great_circle_miles, gcMiles.
  rewrite !isFinite_reads_finite, andb_comm. reflexivity.
Qed.

(** X10.  The cards are always a rearrangement of the hospitals given:
    none is dropped or repeated.  When the entered ZIP is, as typed, a key
    of the table whose coordinates pass [isFinite], and the distances are
    numbers, then of two cards the earlier one is no farther from the ZIP
    than the later one when both hospitals have coordinates that read as
    finite numbers, and a hospital whose latitude or longitude does not
    (undefined, NaN, an infinity, a text that is no number) is followed only
    by hospitals of that kind or at an infinite distance.  An empty
    coordinate ([null]) reads as 0 and is sorted by the distance that
    gives. *)
Theorem cards_by_distance (ZIP : gmap string (value * value))
    (zip_value : string) (hlist : list hospital) :
  let cards := sortedHospitals ZIP zip_value hlist in
  Permutation cards hlist
  /\ (forall zipLat zipLon,
        trim zip_value <> "" ->
        ZIP !! trim zip_value = Some (zipLat, zipLon) ->
        isFinite zipLat = true ->
        isFinite zipLon = true ->
        (forall h, In h hlist -> located h = true ->
                   great_circle_miles (zipLon, zipLat) h <> NaN) ->
        forall l1 x l2 y l3,
          cards = l1 ++ x :: l2 ++ y :: l3 ->
          (located x = true -> located y = true ->
           Nle (Nmul (geoDistance (zipLon, zipLat) (lon x, lat x)) EARTH_MI)
               (Nmul (geoDistance (zipLon, zipLat) (lon y, lat y)) EARTH_MI)
           = true)
          /\ (located x = false ->
              located y = false
              \/ Nmul (geoDistance (zipLon, zipLat) (lon y, lat y)) EARTH_MI
                 = PosInfinity))
  /\ (forall v, reads_finite v = isFinite v).
Proof.
  intros cards.
  assert (Permutation cards hlist) as Hperm by apply sortedHospitals_perm.
  split; [exact Hperm|].
  split; [|intros v; now rewrite isFinite_reads_finite].
  intros zipLat zipLon Hne Hzip Hlat Hlon Hnum l1 x l2 y l3 Hsplit.
  assert (Forall (fun h => card_distance zipLat zipLon h <> NaN) hlist)
    as Hnum'.
  { apply List.Forall_forall. intros h Hin. rewrite card_distance_cases.
    destruct (located h) eqn:El; [now apply Hnum | discriminate]. }
  assert (Sorted (fun x y => Nle (card_distance zipLat zipLon x)
                                 (card_distance zipLat zipLon y) = true) cards)
    as Hsorted.
  { unfold cards, sortedHospitals.
    apply String.eqb_neq in Hne. rewrite Hne, Hzip, Hlat, Hlon. cbn [andb].
    now apply (Array_sort_by_key_sorted (card_distance zipLat zipLon)). }
  assert (Nle (card_distance zipLat zipLon x) (card_distance zipLat zipLon y)
          = true) as Hle.
  { rewrite Hsplit in Hsorted.
    apply Sorted_StronglySorted in Hsorted;
      [|intros u v w; apply Nle_trans].
    apply StronglySorted_suffix in Hsorted.
    apply StronglySorted_inv in Hsorted as [_ Hall].
    rewrite List.Forall_forall in Hall. apply Hall.
    apply in_or_app. right. now left. }
  assert (In y hlist) as Hy.
  { apply (Permutation_in _ Hperm). rewrite Hsplit.
    apply in_or_app. right. right. apply in_or_app. right. now left. }
  rewrite !card_distance_cases in Hle. unfold great_circle_miles in *.
  split.
  - intros Hx Hy'. now rewrite Hx, Hy' in Hle.
  - intros Hx. rewrite Hx in Hle.
    destruct (located y) eqn:Ely; [right | now left].
    specialize (Hnum y Hy Ely). cbn [lon lat] in *.
    destruct (Nmul _ _); try reflexivity; try discriminate; congruence.
Qed.

(** ** Pattern configuration *)

Lemma config_entries_lookup (entries : list (string * option record))
    (m0 m : gmap string RegExp) (name : string) (regex : RegExp) :
  config_entries m0 entries = Some m ->
  m !! name = Some regex ->
  m0 !! name = Some regex
  \/ exists o, In (name, Some o) entries
               /\ RegExp_new (pattern_text (get o "pattern")) = Some regex.
Proof.
  revert m0. induction entries as [|[n obj] entries IH]; intros m0 Hc Hl.
  - injection Hc as <-. now left.
  - cbn [config_entries] in Hc. destruct obj as [o|]; [|discriminate].
    destruct (RegExp_new (pattern_text (get o "pattern"))) as [re|] eqn:E;
      [|discriminate].
    destruct (IH _ Hc Hl) as [H0 | (o' & Hin & Hre)].
    + destruct (decide (n = name)) as [->|Hn].
      * rewrite lookup_insert_eq in H0. injection H0 as <-.
        right. exists o. split; [now left | exact E].
      * rewrite lookup_insert_ne in H0 by exact Hn. now left.
    + right. exists o'. split; [now right | exact Hre].
Qed.

Lemma config_entries_all (entries : list (string * option record))
    (m0 : gmap string RegExp) :
  is_Some (config_entries m0 entries)
  <-> Forall (fun e => exists o regex,
                snd e = Some o
                /\ RegExp_new (pattern_text (get o "pattern")) = Some regex)
             entries.
Proof.
  revert m0. induction entries as [|[n obj] entries IH]; intros m0.
  - split; [constructor | cbn; eauto].
  - cbn [config_entries]. destruct obj as [o|].
    + destruct (RegExp_new (pattern_text (get o "pattern"))) as [re|] eqn:E.
      * rewrite IH. split.
        -- intros Hall. constructor; [cbn; eauto | exact Hall].
        -- intros Hall. now apply Forall_cons in Hall as [_ Hall].
      * split; [intros [x [=]]|].
        intros Hall. apply Forall_cons in Hall as [(o' & re & [= <-] & E') _].
        congruence.
    + split; [intros [x [=]]|].
      intros Hall. apply Forall_cons in Hall as [(o' & re & [=] & _) _].
Qed.

Lemma config_entries_dom (entries : list (string * option record))
    (m0 m : gmap string RegExp) (name : string) :
  config_entries m0 entries = Some m ->
  (is_Some (m0 !! name) \/ In name (map fst entries)) ->
  is_Some (m !! name).
Proof.
  revert m0. induction entries as [|[n obj] entries IH]; intros m0 Hc Hin.
  - injection Hc as <-. destruct Hin as [Hin | []]. exact Hin.
  - cbn [config_entries] in Hc. destruct obj as [o|]; [|discriminate].
    destruct (RegExp_new (pattern_text (get o "pattern"))) as [re|];
      [|discriminate].
    apply (IH _ Hc). destruct Hin as [Hin | [<- | Hin]].
    + left. destruct (decide (n = name)) as [->|Hn].
      * rewrite lookup_insert_eq. eauto.
      * now rewrite lookup_insert_ne.
    + left. rewrite lookup_insert_eq. eauto.
    + now right.
Qed.

(** X11.  The pattern configuration is loaded all or nothing.  If one entry
    of the file is [null] or has a pattern that does not compile, the table
    comes back empty, the valid entries before it included, and then no
    configured service gives a search pattern; if every entry compiles,
    every name of the file is in the table, bound to an expression compiled
    from an entry of that name. *)
Theorem service_config_all_or_nothing
    (entries : list (string * option record)) :
  (Exists (fun e => forall o, snd e = Some o ->
                      RegExp_new (pattern_text (get o "pattern")) = None)
          entries ->
   loadServiceConfig (Some entries) = ∅
   /\ forall a t c,
        services t = loadServiceConfig (Some entries) ->
        currentConfigType a = "service" ->
        service_value c <> "custom" ->
        go_searchPattern a t c = "")
  /\ (Forall (fun e => exists o regex,
                snd e = Some o
                /\ RegExp_new (pattern_text (get o "pattern")) = Some regex)
             entries ->
      (forall name, In name (map fst entries) ->
                    is_Some (loadServiceConfig (Some entries) !! name))
      /\ (forall name regex,
            loadServiceConfig (Some entries) !! name = Some regex ->
            exists o, In (name, Some o) entries
                      /\ RegExp_new (pattern_text (get o "pattern"))
                         = Some regex))
  /\ loadServiceConfig None = ∅
  /\ loadRevenueCodeConfig (Some entries) = loadServiceConfig (Some entries).
Proof.
  split; [|split; [|split; reflexivity]].
  - intros Hbad.
    assert (config_entries ∅ entries = None) as Hnone.
    { destruct (config_entries ∅ entries) as [m|] eqn:E; [|reflexivity].
      assert (is_Some (config_entries ∅ entries)) as Hs by (rewrite E; eauto).
      apply config_entries_all in Hs.
      apply List.Exists_exists in Hbad as (e & Hin & Hfail).
      rewrite List.Forall_forall in Hs.
      destruct (Hs e Hin) as (o & re & Ho & Hre).
      rewrite (Hfail o Ho) in Hre. discriminate. }
    assert (loadServiceConfig (Some entries) = ∅) as Hempty
      by (cbn; now rewrite Hnone).
    split; [exact Hempty|].
    intros a t c Hsvc Hmode Hcustom. unfold go_searchPattern.
    rewrite Hmode. cbn. rewrite Hsvc, Hempty, lookup_empty.
    apply String.eqb_neq in Hcustom. now rewrite Hcustom.
  - intros Hall. apply config_entries_all with (m0 := ∅) in Hall as [m Hm].
    cbn [loadServiceConfig]. rewrite Hm. cbn [default]. split.
    + intros name Hin. eapply config_entries_dom; [exact Hm | now right].
    + intros name regex Hl.
      destruct (config_entries_lookup _ _ _ _ _ Hm Hl) as [H0 | Hex];
        [rewrite lookup_empty in H0; discriminate | exact Hex].
Qed.


(** ** The Arrow variant of the query *)



(** ** The worker pool *)

Lemma pool_step_invariant (n : nat) (st st' : pool_state) (e : pool_event) :
  pool_step n st e = Some st' ->
  Permutation (stored st ++ awaited st) (seq 0 (next_index st))
  /\ next_index st <= n /\ length (awaited st) <= pool ->
  Permutation (stored st' ++ awaited st') (seq 0 (next_index st'))
  /\ next_index st' <= n /\ length (awaited st') <= pool.
Proof.
  intros Hstep (Hperm & Hidx & Hbusy). destruct e as [|k];
    unfold pool_step in Hstep.
  - destruct (Nat.ltb (next_index st) n
              && Nat.ltb (length (awaited st)) pool) eqn:E; [|discriminate].
    apply andb_true_iff in E as [E1 E2].
    injection Hstep as <-. cbn [stored awaited next_index].
    apply Nat.ltb_lt in E1, E2. rewrite length_app. cbn [length].
    split; [|lia]. rewrite seq_S, app_assoc. cbn [Nat.add].
    now apply Permutation_app_tail.
  - destruct (awaited st !! k) as [i|] eqn:E; [|discriminate].
    injection Hstep as <-. cbn [stored awaited next_index].
    pose proof (delete_Permutation _ _ _ E) as Hdel.
    split; [|split; [exact Hidx|]].
    + rewrite <- Hperm, <- app_assoc. cbn.
      apply Permutation_app_head. now symmetry.
    + apply Permutation_length in Hdel. cbn in Hdel. lia.
Qed.

Lemma pool_run_invariant (n : nat) (es : list pool_event) (st st' : pool_state) :
  pool_run n st es = Some st' ->
  Permutation (stored st ++ awaited st) (seq 0 (next_index st))
  /\ next_index st <= n /\ length (awaited st) <= pool ->
  Permutation (stored st' ++ awaited st') (seq 0 (next_index st'))
  /\ next_index st' <= n /\ length (awaited st') <= pool.
Proof.
  revert st. induction es as [|e es IH]; intros st Hrun Hinv; cbn in Hrun.
  - now injection Hrun as <-.
  - destruct (pool_step n st e) as [st1|] eqn:E; [|discriminate].
    apply (IH st1 Hrun). eapply pool_step_invariant; eassumption.
Qed.

(** X13.  Whatever the order in which the queries settle, the pool hands
    every index of the candidate list to one worker and one only, in index
    order: the indices stored and the indices awaited are together exactly
    those below the cursor, never more than 4 queries are awaited at once,
    and when the pool is done each of the [n] hospitals has had its hits
    stored exactly once.  The pool is never stuck before it is done. *)
Theorem pool_serves_each_hospital_once (n : nat) (es : list pool_event)
    (st : pool_state) :
  pool_run n pool_start es = Some st ->
  Permutation (stored st ++ awaited st) (seq 0 (next_index st))
  /\ next_index st <= n
  /\ length (awaited st) <= 4
  /\ (pool_done n st ->
      Permutation (stored st) (seq 0 n)
      /\ NoDup (stored st)
      /\ forall i, In i (stored st) <-> i < n)
  /\ (~ pool_done n st -> exists e st', pool_step n st e = Some st').
Proof.
  intros Hrun.
  destruct (pool_run_invariant n es pool_start st Hrun)
    as (Hperm & Hidx & Hbusy).
  { cbn. split; [reflexivity|]. unfold pool. lia. }
  split; [exact Hperm|]. split; [exact Hidx|]. split; [exact Hbusy|]. split.
  - intros [Hnone Hend]. rewrite Hnone, app_nil_r in Hperm.
    replace (next_index st) with n in Hperm by lia.
    split; [exact Hperm|]. split.
    + rewrite Hperm. apply NoDup_seq.
    + intros i. split; intros Hi.
      * apply (Permutation_in _ Hperm), in_seq in Hi. lia.
      * apply (Permutation_in _ (Permutation_sym Hperm)), in_seq. lia.
  - intros Hnot. destruct (awaited st) as [|i rest] eqn:Ea.
    + exists Take. unfold pool_step. rewrite Ea.
      destruct (Nat.ltb (next_index st) n) eqn:E; [cbn; eauto|].
      exfalso. apply Hnot. split; [exact Ea|]. apply Nat.ltb_ge in E. lia.
    + exists (Settle 0). unfold pool_step. rewrite Ea. cbn. eauto.
Qed.


(** ** The cache under overlapping calls *)

Lemma remove_first_count (p q : string) (l rest : list string) :
  remove_first p l = Some rest ->
  count_occ string_dec l q
  = count_occ string_dec rest q + (if string_dec p q then 1 else 0).
Proof.
  revert rest. induction l as [|x l IH]; intros rest Hr; [discriminate|].
  cbn [remove_first] in Hr. destruct (String.eqb_spec x p) as [->|Hx].
  - injection Hr as <-. cbn [count_occ].
    destruct (string_dec p q); lia.
  - destruct (remove_first p l) as [r|]; [|discriminate].
    injection Hr as <-. cbn [count_occ]. rewrite (IH r eq_refl).
    destruct (string_dec x q); lia.
Qed.

Lemma step_consistent (t t' : tasks) (e : event) :
  step t e = Some t' -> cache_consistent t -> cache_consistent t'.
Proof.
  intros Hstep Hinv p. destruct (Hinv p) as (Hcount & Hcached & Hempty).
  destruct e as [jsonPath | q resp]; cbn [step] in Hstep.
  - destruct jsonPath as [q|]; cbn [load_start] in Hstep;
      [|injection Hstep as <-; cbn; auto].
    destruct (String.eqb_spec q "") as [Eq|Hq];
      [injection Hstep as <-; cbn; auto|].
    destruct (jsonCache (sess t) !! q);
      injection Hstep as <-; cbn [sess inflight fetchLog parseLog jsonCache];
      [auto|].
    rewrite !count_occ_snoc. split; [|split; [exact Hcached|]].
    + destruct (string_dec q p); lia.
    + intros Ep. destruct (string_dec q p) as [E|E]; [congruence|].
      rewrite (Hempty Ep). lia.
  - destruct (remove_first q (inflight t)) as [rest|] eqn:Er; [|discriminate].
    pose proof (remove_first_count q p _ _ Er) as Hrem.
    destruct resp as [|[|] text]; cbn [load_finish] in Hstep;
      injection Hstep as <-; cbn [sess inflight fetchLog parseLog jsonCache].
    + split; [lia | auto].
    + rewrite count_occ_snoc. split; [|split; [|exact Hempty]].
      * destruct (string_dec q p); lia.
      * intros jsonData Hl. destruct (string_dec q p) as [->|Hne].
        -- rewrite lookup_insert_eq in Hl. injection Hl as <-.
           split; [lia | eauto].
        -- rewrite lookup_insert_ne in Hl by exact Hne.
           destruct (Hcached _ Hl) as [H1 H2]. split; [lia | exact H2].
    + split; [lia | auto].
Qed.

Lemma load_start_cache (s : session) (jsonPath : option string) :
  jsonCache (load_start s jsonPath).1 = jsonCache s.
Proof.
  destruct jsonPath as [p|]; cbn [load_start]; [|reflexivity].
  destruct (String.eqb p ""); [reflexivity|].
  now destruct (jsonCache s !! p).
Qed.

(** Where a cached sequence comes from: it was cached before the events,
    or it is the parse of the body of a response of the events for that path
    that carried a success status. *)
Lemma run_cache_origin (es : list event) (t t' : tasks) (p : string)
    (jsonData : list record) :
  run t es = Some t' ->
  jsonCache (sess t') !! p = Some jsonData ->
  jsonCache (sess t) !! p = Some jsonData
  \/ exists text,
       In (Respond p (HttpResponse true text)) es
       /\ jsonData = parse_json_lines text.
Proof.
  revert t. induction es as [|e es IH]; intros t Hrun Hl; cbn [run] in Hrun.
  - injection Hrun as <-. now left.
  - destruct (step t e) as [t1|] eqn:E; [|discriminate].
    destruct (IH t1 Hrun Hl) as [Hc | (text & Hin & ->)];
      [|right; exists text; split; [now right | reflexivity]].
    destruct e as [jsonPath | q resp]; cbn [step] in E.
    + left. pose proof (load_start_cache (sess t) jsonPath) as Hk.
      destruct (load_start (sess t) jsonPath) as [s' [d|q n]];
        injection E as <-; cbn [sess fst] in *; now rewrite <- Hk.
    + destruct (remove_first q (inflight t)) as [rest|]; [|discriminate].
      destruct resp as [|[|] text]; cbn [load_finish] in E;
        injection E as <-; cbn [sess jsonCache] in Hc; [now left | | now left].
      destruct (decide (q = p)) as [->|Hne].
      * rewrite lookup_insert_eq in Hc. injection Hc as <-.
        right. exists text. split; [now left | reflexivity].
      * rewrite lookup_insert_ne in Hc by exact Hne. now left.
Qed.

(** X14.  However calls of [loadHospitalJSON] overlap, starting from an
    empty session: a path is never parsed more often than it was fetched
    (each parse, and each call still waiting, has a fetch of its own); a
    cached sequence is always the parse of the body of a response that was
    delivered for that path with a success status, never the empty result
    of a failure; and no fetch is ever issued for the empty path. *)
Theorem parses_backed_by_fetches (es : list event) (t : tasks) :
  run (idle empty_session) es = Some t ->
  forall p,
    count_occ string_dec (parseLog (sess t)) p
    + count_occ string_dec (inflight t) p
    <= count_occ string_dec (fetchLog (sess t)) p
    /\ (forall jsonData,
          jsonCache (sess t) !! p = Some jsonData ->
          1 <= count_occ string_dec (parseLog (sess t)) p
          /\ exists text,
               In (Respond p (HttpResponse true text)) es
               /\ jsonData = parse_json_lines text)
    /\ (p = "" -> count_occ string_dec (fetchLog (sess t)) p = 0).
Proof.
  assert (forall es t0 t, run t0 es = Some t ->
            cache_consistent t0 -> cache_consistent t) as Hrun.
  { induction es0 as [|e es0 IH]; intros t0 t1 Hr Hinv; cbn [run] in Hr.
    - now injection Hr as <-.
    - destruct (step t0 e) as [t2|] eqn:E; [|discriminate].
      apply (IH t2 t1 Hr). eapply step_consistent; eassumption. }
  intros Hr p.
  assert (cache_consistent t) as Hinv.
  { apply (Hrun es (idle empty_session) t Hr).
    intros q. cbn. split; [lia|]. split; [|reflexivity].
    intros jsonData Hl. rewrite lookup_empty in Hl. discriminate. }
  destruct (Hinv p) as (H1 & H2 & H3).
  split; [exact H1|]. split; [|exact H3].
  intros jsonData Hl. split; [now apply (H2 jsonData)|].
  destruct (run_cache_origin es _ _ p jsonData Hr Hl) as [Hc | Hex];
    [|exact Hex].
  cbn in Hc. rewrite lookup_empty in Hc. discriminate.
Qed.

(** ** The payer scan and the queries after it *)

Lemma start_loads_cache (hs : list hospital) (s : session) :
  jsonCache (start_loads s hs).1 = jsonCache s.
Proof.
  revert s. induction hs as [|h hs IH]; intros s; [reflexivity|].
  cbn [start_loads]. destruct (String.eqb (json_path h) ""); [apply IH|].
  pose proof (load_start_cache s (Some (json_path h))) as H1.
  destruct (load_start s (Some (json_path h))) as [s1 st].
  pose proof (IH s1) as H2. destruct (start_loads s1 hs) as [s2 sts].
  cbn in *. congruence.
Qed.

Lemma start_loads_awaiting (hs : list hospital) (s : session) (h : hospital) :
  In h hs -> json_path h <> "" -> jsonCache s !! json_path h = None ->
  exists n, In (Awaiting (json_path h) n) (start_loads s hs).2.
Proof.
  revert s. induction hs as [|h0 hs IH]; intros s Hin Hp Hmiss; [destruct Hin|].
  cbn [start_loads]. destruct (String.eqb_spec (json_path h0) "") as [E0|E0].
  - destruct Hin as [-> | Hin]; [contradiction|]. now apply IH.
  - pose proof (load_start_cache s (Some (json_path h0))) as Hc.
    destruct Hin as [-> | Hin].
    + rewrite (load_start_miss _ _ Hp Hmiss).
      destruct (start_loads _ hs) as [s2 sts]. cbn. eauto.
    + destruct (load_start s (Some (json_path h0))) as [s1 st]. cbn in Hc.
      destruct (IH s1 Hin Hp) as [n Hn]; [now rewrite Hc|].
      destruct (start_loads s1 hs) as [s2 sts]. cbn in *. eauto.
Qed.

Lemma load_finish_keeps (s : session) (q : string) (resp : response)
    (p : string) :
  is_Some (jsonCache s !! p) ->
  is_Some (jsonCache (load_finish s q resp).1 !! p).
Proof.
  intros Hc. destruct resp as [|[|] text]; cbn; try exact Hc.
  destruct (decide (q = p)) as [->|Hne].
  - rewrite lookup_insert_eq. eauto.
  - now rewrite lookup_insert_ne.
Qed.

Lemma finish_loads_keeps (net : network) (sts : list load_status)
    (s : session) (p : string) :
  is_Some (jsonCache s !! p) ->
  is_Some (jsonCache (finish_loads net s sts).1 !! p).
Proof.
  revert s. induction sts as [|[d | q n] sts IH]; intros s Hc; [exact Hc| |].
  - cbn [finish_loads]. specialize (IH s Hc).
    now destruct (finish_loads net s sts).
  - cbn [finish_loads].
    pose proof (load_finish_keeps s q (net n (jsonUrl q)) p Hc) as H1.
    destruct (load_finish s q (net n (jsonUrl q))) as [s1 d].
    specialize (IH s1 H1). now destruct (finish_loads net s1 sts).
Qed.

Lemma finish_loads_awaiting (net : network) (sts : list load_status)
    (s : session) (p : string) (n : nat) :
  In (Awaiting p n) sts ->
  (forall k, exists text, net k (jsonUrl p) = HttpResponse true text) ->
  is_Some (jsonCache (finish_loads net s sts).1 !! p).
Proof.
  intros Hin Hok. revert s.
  induction sts as [|[d | q k] sts IH]; intros s; [destruct Hin| |].
  - destruct Hin as [[=] | Hin]. cbn [finish_loads].
    specialize (IH Hin s). now destruct (finish_loads net s sts).
  - cbn [finish_loads]. destruct Hin as [[= -> ->] | Hin].
    + destruct (Hok n) as [text ->]. cbn [load_finish].
      pose proof (finish_loads_keeps net sts
                    {| jsonCache := <[p := parse_json_lines text]> (jsonCache s);
                       fetchLog := fetchLog s;
                       parseLog := parseLog s ++ [p] |} p) as Hk.
      destruct (finish_loads net _ sts) as [s2 datas]. cbn in Hk |- *.
      apply Hk. rewrite lookup_insert_eq. eauto.
    + destruct (load_finish s q (net k (jsonUrl q))) as [s1 d].
      specialize (IH Hin s1). now destruct (finish_loads net s1 sts).
Qed.

Lemma worker_hits_cached (a : app) (net : network) (s : session)
    (searchPattern : string) (selectedPayer : option string) (h : hospital)
    (jsonData : list record) :
  jsonCache s !! json_path h = Some jsonData ->
  worker_hits a net s searchPattern selectedPayer h
  = (s, if String.eqb searchPattern "" || String.eqb (json_path h) ""
        then [] else query_loaded a jsonData searchPattern selectedPayer).
Proof.
  intros Hc.
  destruct (worker_hits_cases a net s searchPattern selectedPayer h)
    as [[-> [-> | ->]] | (Hs & Hj & ->)].
  - reflexivity.
  - now rewrite orb_true_r.
  - apply String.eqb_neq in Hs as Hs'. apply String.eqb_neq in Hj as Hj'.
    rewrite Hs', Hj'. unfold loadHospitalJSON.
    now rewrite (load_start_cached _ _ _ Hj Hc).
Qed.

(** X15.  The payer scan warms the cache for the queries that follow it in
    [go]: when the server answers every fetch of a hospital's chargemaster
    with a success, that hospital's path is cached once [getUniquePayers]
    has run over a list containing it, and its query afterwards, whatever
    the pattern, the payer or the network then, issues no fetch and parses
    nothing. *)
Theorem payer_scan_warms_cache (net : network) (s : session)
    (hospitalList : list hospital) (h : hospital) :
  In h hospitalList ->
  json_path h <> "" ->
  (forall k, exists text,
     net k (jsonUrl (json_path h)) = HttpResponse true text) ->
  let scanned := (getUniquePayers net s hospitalList).1 in
  is_Some (jsonCache scanned !! json_path h)
  /\ forall a net' searchPattern selectedPayer,
       (worker_hits a net' scanned searchPattern selectedPayer h).1 = scanned.
Proof.
  intros Hin Hp Hok scanned.
  assert (is_Some (jsonCache scanned !! json_path h)) as Hc.
  { unfold scanned, getUniquePayers.
    pose proof (start_loads_cache hospitalList s) as Hsc.
    pose proof (start_loads_awaiting hospitalList s h Hin Hp) as Haw.
    destruct (start_loads s hospitalList) as [s1 sts]. cbn in Hsc, Haw.
    pose proof (finish_loads_keeps net sts s1 (json_path h)) as Hk.
    pose proof (fun n Hn => finish_loads_awaiting net sts s1 (json_path h) n Hn Hok)
      as Hf.
    destruct (finish_loads net s1 sts) as [s2 datas]. cbn in Hk, Hf |- *.
    destruct (jsonCache s !! json_path h) as [d|] eqn:E.
    - apply Hk. rewrite Hsc, E. eauto.
    - destruct (Haw eq_refl) as [n Hn]. now apply (Hf n). }
  split; [exact Hc|]. intros a net' searchPattern selectedPayer.
  destruct Hc as [jsonData Hc].
  now rewrite (worker_hits_cached _ _ _ _ _ _ _ Hc).
Qed.


(** ** Form handlers *)







(** ** Payer names *)

Lemma trimStart_list_head (l : list ascii) (c : ascii) (l' : list ascii) :
  trimStart_list l = c :: l' -> is_whitespace c = false.
Proof.
  induction l as [|d l IH]; cbn [trimStart_list]; [discriminate|].
  destruct (is_whitespace d) eqn:E; [exact IH|]. now intros [= <- _].
Qed.

Lemma trimStart_list_idem (l : list ascii) :
  trimStart_list (trimStart_list l) = trimStart_list l.
Proof.
  induction l as [|d l IH]; cbn [trimStart_list]; [reflexivity|].
  destruct (is_whitespace d) eqn:E; [exact IH|].
  cbn [trimStart_list]. now rewrite E.
Qed.

Lemma trimStart_list_snoc (l : list ascii) (c : ascii) :
  is_whitespace c = false ->
  trimStart_list (l ++ [c]) = trimStart_list l ++ [c].
Proof.
  intros Hc. induction l as [|d l IH]; cbn [trimStart_list Datatypes.app].
  - now rewrite Hc.
  - destruct (is_whitespace d); [exact IH | reflexivity].
Qed.

Lemma trim_list_idem (l : list ascii) :
  trim_list (trim_list l) = trim_list l.
Proof.
  unfold trim_list. destruct (trimStart_list l) as [|c a] eqn:Ea.
  - reflexivity.
  - pose proof (trimStart_list_head _ _ _ Ea) as Hc.
    cbn [rev]. rewrite (trimStart_list_snoc _ _ Hc).
    rewrite rev_app_distr. cbn [rev Datatypes.app trimStart_list]. rewrite Hc.
    cbn [rev]. rewrite rev_involutive.
    rewrite (trimStart_list_snoc _ _ Hc), trimStart_list_idem.
    now rewrite rev_app_distr.
Qed.

Lemma trim_idem (s : string) : trim (trim s) = trim s.
Proof.
  unfold trim.
  now rewrite list_ascii_of_string_of_list_ascii, trim_list_idem.
Qed.

Lemma collect_payers_elem (jsonData : list record) (payerSet : gset string)
    (x : string) :
  x ∈ collect_payers payerSet jsonData ->
  x ∈ payerSet
  \/ exists r s, In r jsonData /\ get r "payer_name" = Str s
                 /\ x = trim s /\ trim s <> "".
Proof.
  revert payerSet. induction jsonData as [|r rest IH]; intros payerSet Hx;
    [now left|].
  cbn [collect_payers] in Hx.
  destruct (get r "payer_name") as [| |b|n|s|o] eqn:E;
    try (destruct (truthy _); [now left|]);
    try (apply IH in Hx as [Hx | (r' & s' & Hin & Hg & Hx & Hne)];
         [now left | right; exists r', s'; repeat split; auto; now right]).
  destruct (negb (String.eqb s "") && negb (String.eqb (trim s) "")) eqn:C.
  - apply IH in Hx as [Hx | (r' & s' & Hin & Hg & Hx & Hne)].
    + apply elem_of_union in Hx as [Hx | Hx]; [|now left].
      apply elem_of_singleton in Hx. right. exists r, s.
      apply andb_true_iff in C as [_ C]. apply negb_true_iff in C.
      apply String.eqb_neq in C. repeat split; auto. now left.
    + right. exists r', s'. repeat split; auto. now right.
  - apply IH in Hx as [Hx | (r' & s' & Hin & Hg & Hx & Hne)];
      [now left | right; exists r', s'; repeat split; auto; now right].
Qed.

Lemma collect_payers_grows (jsonData : list record) (payerSet : gset string)
    (x : string) :
  x ∈ payerSet -> x ∈ collect_payers payerSet jsonData.
Proof.
  revert payerSet. induction jsonData as [|r rest IH]; intros payerSet Hx;
    [exact Hx|].
  cbn [collect_payers].
  destruct (get r "payer_name") as [| |b|n|s|o];
    try (destruct (truthy _); [exact Hx | now apply IH]);
    try (now apply IH).
  destruct (negb (String.eqb s "") && negb (String.eqb (trim s) ""));
    apply IH; [apply elem_of_union; now right | exact Hx].
Qed.

(** X17.  What the scan of one file adds to the payer set: only trimmed,
    non-empty names of string [payer_name]s of its records, and nothing is
    ever removed.  When every truthy [payer_name] of the file is a string,
    every such name is added.  But a record whose [payer_name] is truthy and
    not a string (a number, say) ends the scan of its file: the names of the
    records after it are not collected. *)
Theorem payers_of_one_file (payerSet : gset string) (jsonData : list record) :
  (forall x, x ∈ collect_payers payerSet jsonData ->
     x ∈ payerSet
     \/ exists r s, In r jsonData /\ get r "payer_name" = Str s
                    /\ x = trim s /\ trim s <> "")
  /\ (forall x, x ∈ payerSet -> x ∈ collect_payers payerSet jsonData)
  /\ ((forall r, In r jsonData -> trim_throws (get r "payer_name") = false) ->
      forall r s, In r jsonData -> get r "payer_name" = Str s ->
                  trim s <> "" ->
                  trim s ∈ collect_payers payerSet jsonData)
  /\ (forall before r after,
        jsonData = before ++ r :: after ->
        trim_throws (get r "payer_name") = true ->
        collect_payers payerSet jsonData = collect_payers payerSet before).
Proof.
  split; [apply collect_payers_elem|]. split; [apply collect_payers_grows|].
  split.
  - revert payerSet. induction jsonData as [|r0 rest IH];
      intros payerSet Hstr r s Hin Hg Hne; [destruct Hin|].
    assert (forall r, In r rest -> trim_throws (get r "payer_name") = false)
      as Hrest by (intros r' Hr'; apply Hstr; now right).
    cbn [collect_payers]. destruct Hin as [-> | Hin].
    + rewrite Hg.
      assert (s <> "") as Hs by (intros ->; now apply Hne).
      apply String.eqb_neq in Hs, Hne. rewrite Hs, Hne. cbn [negb andb].
      apply collect_payers_grows, elem_of_union. left.
      now apply elem_of_singleton.
    + pose proof (Hstr r0 (or_introl eq_refl)) as H0.
      destruct (get r0 "payer_name") as [| |b|n|s0|o];
        cbn [trim_throws truthy] in H0; cbn [truthy];
        try discriminate; try rewrite H0;
        try (now apply (IH _ Hrest r s)).
      destruct (negb (String.eqb s0 "") && negb (String.eqb (trim s0) ""));
        now apply (IH _ Hrest r s).
  - intros before r after -> Hthrow. revert payerSet.
    induction before as [|r0 before IH]; intros payerSet.
    + cbn [Datatypes.app collect_payers].
      destruct (get r "payer_name") as [| |b|n|s|o];
        cbn [trim_throws] in Hthrow; try discriminate; now rewrite Hthrow.
    + cbn [Datatypes.app collect_payers].
      destruct (get r0 "payer_name") as [| |b|n|s0|o];
        try (destruct (truthy _); [reflexivity | apply IH]);
        try (apply IH).
      destruct (negb (String.eqb s0 "") && negb (String.eqb (trim s0) ""));
        apply IH.
Qed.

Lemma insert_sorted_perm (x : string) (l : list string) :
  Permutation (insert_sorted x l) (x :: l).
Proof.
  induction l as [|y l IH]; cbn [insert_sorted]; [reflexivity|].
  destruct (String.leb x y); [reflexivity|].
  rewrite IH. apply perm_swap.
Qed.

Lemma insert_sorted_sorted (x : string) (l : list string) :
  Sorted (fun u v => String.leb u v = true) l ->
  Sorted (fun u v => String.leb u v = true) (insert_sorted x l).
Proof.
  induction 1 as [|y l Hs IH Hd]; cbn [insert_sorted].
  - repeat constructor.
  - destruct (String.leb x y) eqn:E.
    + constructor; [now constructor|]. now constructor.
    + assert (String.leb y x = true) as Hyx
        by (destruct (String.leb_total x y); congruence).
      constructor; [exact IH|].
      destruct l as [|z l]; cbn [insert_sorted].
      * now constructor.
      * destruct (String.leb x z); constructor; [exact Hyx|].
        now inversion Hd.
Qed.

Lemma foldl_collect_payers_elem (datas : list (list record))
    (payerSet : gset string) (x : string) :
  x ∈ foldl collect_payers payerSet datas ->
  x ∈ payerSet
  \/ exists jsonData r s,
       In jsonData datas /\ In r jsonData /\ get r "payer_name" = Str s
       /\ x = trim s /\ trim s <> "".
Proof.
  revert payerSet. induction datas as [|d datas IH]; intros payerSet Hx;
    [now left|].
  cbn [foldl] in Hx.
  apply IH in Hx as [Hx | (d' & r & s & Hd & Hr & Hg & Hx & Hne)].
  - apply collect_payers_elem in Hx as [Hx | (r & s & Hr & Hg & Hx & Hne)];
      [now left|].
    right. exists d, r, s. repeat split; auto. now left.
  - right. exists d', r, s. repeat split; auto. now right.
Qed.

(** X16.  The payer list [getUniquePayers] returns is in ascending string
    order and has no duplicates; each entry is a non-empty name that
    trimming leaves unchanged, and is the trimmed [payer_name] of a record
    of one of the files the scan obtained. *)
Theorem payer_list_sorted_and_trimmed (net : network) (s : session)
    (hospitalList : list hospital) :
  let payers := (getUniquePayers net s hospitalList).2 in
  let started := start_loads s hospitalList in
  let datas := (finish_loads net started.1 started.2).2 in
  Sorted (fun x y => String.leb x y = true) payers
  /\ NoDup payers
  /\ (forall p, In p payers ->
        p <> "" /\ trim p = p
        /\ exists jsonData r name,
             In jsonData datas /\ In r jsonData
             /\ get r "payer_name" = Str name /\ p = trim name).
Proof.
  intros payers started datas.
  assert (payers = foldr insert_sorted [] (elements (foldl collect_payers ∅ datas)))
    as Ep.
  { unfold payers, datas, started, getUniquePayers.
    destruct (start_loads s hospitalList) as [s1 sts]. cbn [fst snd].
    now destruct (finish_loads net s1 sts) as [s2 ds]. }
  assert (forall l, Permutation (foldr insert_sorted [] l) l) as Hperm.
  { induction l as [|x l IH]; [reflexivity|]. cbn [foldr].
    rewrite insert_sorted_perm. now constructor. }
  split; [|split].
  - rewrite Ep. generalize (elements (foldl collect_payers ∅ datas)).
    induction l as [|x l IH]; cbn [foldr]; [constructor|].
    now apply insert_sorted_sorted.
  - rewrite Ep, Hperm. apply NoDup_elements.
  - intros p Hin. rewrite Ep in Hin.
    apply (Permutation_in _ (Hperm _)) in Hin.
    apply list_elem_of_In, elem_of_elements in Hin.
    apply foldl_collect_payers_elem in Hin
      as [Hin | (d & r & name & Hd & Hr & Hg & Hx & Hne)];
      [now apply elem_of_empty in Hin|].
    subst p. split; [exact Hne|]. split; [apply trim_idem|].
    exists d, r, name. auto.
Qed.


(** ** Paths and lines *)

Lemma jsonUrl_docs (p : string) : jsonUrl ("docs/" +:+ p) = p.
Proof.
  unfold jsonUrl, substring_from.
  change ("docs/" +:+ p)
    with (String "d" (String "o" (String "c" (String "s" (String "/" p))))).
  cbn. destruct p; cbn; now rewrite ?string_of_list_ascii_of_string.
Qed.

(** X18.  The cache is keyed by the path as written, not by the address
    fetched: ["docs/" ++ p] and [p] are fetched from the same address, yet
    after a successful load under the first spelling a load under the second
    misses the cache and fetches that address again. *)
Theorem cache_keyed_by_path_as_written (net : network) (s : session)
    (p text : string) :
  p <> "" ->
  String.prefix "docs/" p = false ->
  jsonCache s !! ("docs/" +:+ p) = None ->
  jsonCache s !! p = None ->
  net (length (fetchLog s)) p = HttpResponse true text ->
  let first := loadHospitalJSON net s (Some ("docs/" +:+ p)) in
  let second := loadHospitalJSON net first.1 (Some p) in
  jsonUrl ("docs/" +:+ p) = jsonUrl p
  /\ jsonCache first.1 !! ("docs/" +:+ p) = Some (parse_json_lines text)
  /\ fetchLog second.1 = fetchLog s ++ ["docs/" +:+ p; p].
Proof.
  intros Hp Hpre Hm1 Hm2 Hnet first second.
  assert (jsonUrl p = p) as Eu by (unfold jsonUrl; now rewrite Hpre).
  assert ("docs/" +:+ p <> "") as Hd by discriminate.
  assert ("docs/" +:+ p <> p) as Hne.
  { intros E. rewrite <- E in Hpre.
    change ("docs/" +:+ p)
      with (String "d" (String "o" (String "c" (String "s" (String "/" p)))))
      in Hpre.
    cbn in Hpre. destruct p; cbn in Hpre; discriminate. }
  assert (first = ({| jsonCache := <["docs/" +:+ p := parse_json_lines text]>
                                      (jsonCache s);
                      fetchLog := fetchLog s ++ ["docs/" +:+ p];
                      parseLog := parseLog s ++ ["docs/" +:+ p] |},
                   parse_json_lines text)) as Ef.
  { unfold first, loadHospitalJSON.
    now rewrite (load_start_miss _ _ Hd Hm1), jsonUrl_docs, Hnet. }
  split; [now rewrite jsonUrl_docs, Eu|]. split.
  - rewrite Ef. cbn [fst jsonCache]. apply lookup_insert_eq.
  - unfold second, loadHospitalJSON. rewrite Ef. cbn [fst].
    rewrite load_start_miss;
      [|exact Hp | cbn [jsonCache]; now rewrite lookup_insert_ne].
    cbn [fetchLog]. rewrite <- app_assoc. cbn [Datatypes.app].
    generalize (net (length (fetchLog s ++ ["docs/" +:+ p])) (jsonUrl p)).
    intros [|[|] text']; reflexivity.
Qed.

Lemma list_ascii_of_string_app (s1 s2 : string) :
  list_ascii_of_string (s1 +:+ s2)
  = list_ascii_of_string s1 ++ list_ascii_of_string s2.
Proof.
  induction s1 as [|c s1 IH]; [reflexivity|].
  change (String c s1 +:+ s2) with (String c (s1 +:+ s2)).
  cbn [list_ascii_of_string Datatypes.app]. now f_equal.
Qed.

Lemma split_newline_single (l cur : list ascii) :
  Forall (fun c => Nat.eqb (nat_of_ascii c) 10 = false) l ->
  split_newline cur l = [string_of_list_ascii (rev cur ++ l)].
Proof.
  intros Hl. revert cur. induction Hl as [|c l Hc Hl IH]; intros cur.
  - cbn. now rewrite app_nil_r.
  - cbn [split_newline]. rewrite Hc, IH. cbn [rev].
    now rewrite <- app_assoc.
Qed.

Lemma split_newline_line (l cur rest : list ascii) :
  Forall (fun c => Nat.eqb (nat_of_ascii c) 10 = false) l ->
  split_newline cur (l ++ ascii_of_nat 10 :: rest)
  = string_of_list_ascii (rev cur ++ l) :: split_newline [] rest.
Proof.
  intros Hl. revert cur. induction Hl as [|c l Hc Hl IH]; intros cur.
  - cbn. now rewrite app_nil_r.
  - cbn [split_newline Datatypes.app]. rewrite Hc, IH. cbn [rev].
    now rewrite <- app_assoc.
Qed.

Lemma split_join_lines (lines : list string) :
  lines <> [] -> Forall single_line lines ->
  split_lines (join_lines lines) = lines.
Proof.
  intros Hne Hall. induction Hall as [|x rest Hx Hrest IH]; [contradiction|].
  unfold split_lines, join_lines in *. destruct rest as [|y rest].
  - cbn [String.concat]. rewrite (split_newline_single _ [] Hx). cbn.
    now rewrite string_of_list_ascii_of_string.
  - cbn [String.concat]. rewrite !list_ascii_of_string_app. cbn.
    rewrite (split_newline_line _ [] _ Hx). cbn [rev Datatypes.app].
    rewrite string_of_list_ascii_of_string. f_equal.
    apply IH. discriminate.
Qed.

(** X19.  A chargemaster body gives its records line by line: for a body
    made of lines joined by line feeds, with no white space at either end,
    the records returned are the lines that parse to a non-null value, in
    the order of the lines, so never more records than lines, and every
    record returned is the parse of one of the lines. *)
Theorem records_follow_lines (lines : list string) :
  lines <> [] ->
  Forall single_line lines ->
  trim (join_lines lines) = join_lines lines ->
  parse_json_lines (join_lines lines) = omap parse_line lines
  /\ length (parse_json_lines (join_lines lines)) <= length lines
  /\ (forall r, In r (parse_json_lines (join_lines lines)) ->
        exists line, In line lines /\ JSON_parse line = Some (Some r)).
Proof.
  intros Hne Hall Htrim.
  assert (parse_json_lines (join_lines lines) = omap parse_line lines) as E.
  { unfold parse_json_lines. now rewrite Htrim, split_join_lines. }
  rewrite E. split; [reflexivity|]. split.
  - clear. induction lines as [|l lines IH]; [reflexivity|].
    cbn [omap list_omap]. destruct (parse_line l); cbn; lia.
  - clear. intros r Hin. induction lines as [|l lines IH]; [destruct Hin|].
    cbn [omap list_omap] in Hin. unfold parse_line at 1 in Hin.
    destruct (JSON_parse l) as [[o|]|] eqn:El.
    + destruct Hin as [<- | Hin].
      * exists l. split; [now left | exact El].
      * destruct (IH Hin) as (line & Hl & Hp). exists line. split; [now right | exact Hp].
    + destruct (IH Hin) as (line & Hl & Hp). exists line. split; [now right | exact Hp].
    + destruct (IH Hin) as (line & Hl & Hp). exists line. split; [now right | exact Hp].
Qed.


End Properties.

(** * The program on the sample data *)

Example number_strings :
  (RefHost.StringToNumber " 12.50 ", RefHost.StringToNumber "",
   RefHost.StringToNumber "12abc", RefHost.StringParseFloat "12abc",
   RefHost.StringParseFloat "abc", RefHost.StringToNumber "-3")
  = (Finite (25 # 2), Finite 0, NaN, Finite 12, NaN, Finite (-3)).
Proof. vm_compute. reflexivity. Qed.

Example number_formats :
  (RefHost.NumberToString (Finite 70551), RefHost.NumberToString (Finite (25 # 2)),
   RefHost.toFixed (Finite (5 # 4)) 2, RefHost.toFixed (Finite (1 # 3)) 2,
   RefHost.toLocaleString (Finite 1234567),
   RefHost.toLocaleString (Finite (25 # 2)))
  = ("70551", "12.5", "1.25", "0.33", "1,234,567", "12.5").
Proof. vm_compute. reflexivity. Qed.

Example patterns_compiled :
  (RefHost.compiles "(MRI|70551)|^70551$", RefHost.compiles "(",
   RefHost.compiles "a)", RefHost.compiles "*a", RefHost.compiles "a**",
   RefHost.compiles "x+?y", RefHost.compiles "a\")
  = (true, false, false, false, false, true, false).
Proof. vm_compute. reflexivity. Qed.

Example patterns_tested :
  match RefHost.RegExp_new "(MRI|70551)|^70551$", RefHost.RegExp_new "^7.*1$" with
  | Some r, Some r' =>
      (RefHost.test r "Brain mri w/o contrast", RefHost.test r "70551",
       RefHost.test r "CT head", RefHost.test r' "70551",
       RefHost.test r' "170551", RefHost.test r' "")
      = (true, true, false, true, false, false)
  | _, _ => False
  end.
Proof. vm_compute. reflexivity. Qed.

(** The malformed line is dropped, the other three are kept in order. *)
Example chargemaster_lines :
  @parse_json_lines RefHost.host Sample.chargemaster_text
  = [Sample.mri_brain; Sample.mri_spine; Sample.ct_head].
Proof. vm_compute. reflexivity. Qed.

(** In revenue-code mode a record whose [rc_code] matches is a hit even
    though neither its description nor its [code] does. *)
Example revenue_code_hit :
  let r : record := {[ "description" := Str "Room and board";
                       "code" := Str "99999"; "rc_code" := Str "70551" ]} in
  match @RegExp_new RefHost.host "(MRI|70551)|^70551$" with
  | Some regex =>
      @matchesRegex RefHost.host regex
        (getSearchCodeField Sample.revenue_mode) r = true
      /\ @matchesRegex RefHost.host regex
           (getSearchCodeField Sample.service_mode) r = false
  | None => False
  end.
Proof. vm_compute. split; reflexivity. Qed.



(** C2: both MRI records of the sample match "MRI"; the list comes back with
    the record priced 100 (through its minimum charge) before the record
    priced 5, which is not non-decreasing by effective amount. *)
Lemma hits_not_sorted_by_effective_amount :
  let hits := (@worker_hits RefHost.host Sample.service_mode Sample.net
                 empty_session "MRI" None Sample.duke).2 in
  hits = [Sample.mri_brain; Sample.mri_spine]
  /\ map (@amountOf RefHost.host) hits = [Finite 100; Finite 5]
  /\ ~ nondecreasing_by (@amountOf RefHost.host) hits.
Proof.
  assert ((@worker_hits RefHost.host Sample.service_mode Sample.net
             empty_session "MRI" None Sample.duke).2
          = [Sample.mri_brain; Sample.mri_spine]) as E
    by (vm_compute; reflexivity).
  cbv zeta. rewrite E. split; [reflexivity|].
  split; [vm_compute; reflexivity|].
  intros Hs. inversion Hs as [|? ? _ Hd]. inversion Hd as [|? ? Hle].
  vm_compute in Hle. discriminate.
Qed.

Lemma hits_capped_and_sorted_witness :
  let hits := (@worker_hits RefHost.host Sample.service_mode Sample.net
                 empty_session "." None Sample.duke).2 in
  length hits <= 50
  /\ nondecreasing_by (@estimated_key RefHost.host) hits
  /\ Permutation hits [Sample.mri_brain; Sample.mri_spine; Sample.ct_head].
Proof.
  pose proof (@hits_capped_and_sorted RefHost.host Sample.service_mode
                Sample.net empty_session "." None Sample.duke) as W.
  cbv zeta in W |- *. destruct W as (W1 & W2 & W3).
  split; [exact W1|]. split; [exact W2|].
  destruct (W3 (".", RefHost.RSeq RefHost.RAny RefHost.REmpty))
    as (_ & W4 & _); [discriminate | discriminate | vm_compute; reflexivity |].
  etransitivity; [exact W4|]. vm_compute. reflexivity.
Defined.



(** C4: two hospitals publish the same chargemaster path.  The payer scan
    starts both loads before either is answered, so the file is fetched
    twice and, although the first load succeeds, parsed a second time. *)
Lemma shared_path_parsed_twice :
  let s := (@getUniquePayers RefHost.host Sample.net empty_session
              [Sample.duke; Sample.duke_north]).1 in
  json_path Sample.duke = json_path Sample.duke_north
  /\ fetchLog s = [Sample.path; Sample.path]
  /\ parseLog s = [Sample.path; Sample.path]
  /\ count_occ string_dec (parseLog s) Sample.path = 2
  /\ (exists t,
        @run RefHost.host (idle empty_session)
          [ Call (Some Sample.path); Call (Some Sample.path);
            Respond Sample.path (HttpResponse true Sample.chargemaster_text);
            Respond Sample.path (HttpResponse true Sample.chargemaster_text) ]
        = Some t
        /\ parseLog (sess t) = [Sample.path; Sample.path]).
Proof.
  cbv zeta. split; [reflexivity|].
  split; [vm_compute; reflexivity|]. split; [vm_compute; reflexivity|].
  split; [vm_compute; reflexivity|].
  eexists. split; vm_compute; reflexivity.
Qed.

Lemma cached_after_first_load_witness :
  let first := @loadHospitalJSON RefHost.host Sample.net empty_session
                 (Some Sample.path) in
  let later := @load_each RefHost.host Sample.net first.1
                 [Some Sample.path; None; Some "docs/other.json";
                  Some Sample.path] in
  first.2 = [Sample.mri_brain; Sample.mri_spine; Sample.ct_head]
  /\ later.2 !! 3 = Some first.2
  /\ count_occ string_dec (fetchLog later.1) Sample.path = 1
  /\ count_occ string_dec (parseLog later.1) Sample.path = 1.
Proof.
  pose proof (@cached_after_first_load RefHost.host Sample.net empty_session
                Sample.path Sample.chargemaster_text
                [Some Sample.path; None; Some "docs/other.json";
                 Some Sample.path]) as W.
  cbv zeta in W |- *.
  destruct W as (W1 & _ & W4 & W5 & W6 & _);
    [discriminate | reflexivity | reflexivity |].
  split; [rewrite W1; vm_compute; reflexivity|].
  split; [apply W6; reflexivity|]. split; [exact W4 | exact W5].
Defined.

Lemma failed_load_not_cached_witness :
  let call := @loadHospitalJSON RefHost.host Sample.offline empty_session
                (Some Sample.path) in
  failed (Sample.offline 0 (jsonUrl Sample.path))
  /\ call.2 = []
  /\ jsonCache call.1 = ∅
  /\ fetchLog (@loadHospitalJSON RefHost.host Sample.net call.1
                 (Some Sample.path)).1 = [Sample.path; Sample.path].
Proof.
  assert (failed (Sample.offline 0 (jsonUrl Sample.path))) as Hf by (now left).
  destruct (proj1 (@failed_load_not_cached RefHost.host Sample.offline
                     empty_session) Sample.path)
    as (W1 & W2 & _ & _ & W5); [discriminate | reflexivity | exact Hf |].
  cbv zeta. split; [exact Hf|]. split; [exact W1|]. split; [exact W2|].
  exact (W5 Sample.net).
Defined.

(** C6: the payer list offers "Aetna" for the sample chargemaster, taken
    from the record whose [payer_name] is " Aetna "; selecting it leaves
    that record out, although after trimming the two names are equal. *)
Lemma trimmed_payer_not_matched :
  (@getUniquePayers RefHost.host Sample.net empty_session [Sample.duke]).2
  = ["Aetna"; "Cigna"]
  /\ get Sample.mri_brain "payer_name" = Str " Aetna "
  /\ trim " Aetna " = "Aetna"
  /\ matchesPayer (Some "Aetna") Sample.mri_brain = false
  /\ (@worker_hits RefHost.host Sample.service_mode Sample.net
        empty_session "MRI" None Sample.duke).2
     = [Sample.mri_brain; Sample.mri_spine]
  /\ (@worker_hits RefHost.host Sample.service_mode Sample.net
        empty_session "MRI" (Some "Aetna") Sample.duke).2 = [].
Proof. repeat split; vm_compute; reflexivity. Qed.

Lemma amountOf_first_nonzero_witness :
  no_amount (H:=RefHost.host) (get Sample.mri_brain "estimated_amount") = true
  /\ @amountOf RefHost.host Sample.mri_brain = Finite 100
  /\ @amountOf RefHost.host ∅ = Nzero.
Proof.
  split; [reflexivity|]. split.
  - apply (proj2 (@amountOf_first_nonzero RefHost.host Sample.mri_brain)
             ["estimated_amount"; "standard_charge_dollar"; "standard_charge_gross"]
             "standard_charge_min" ["standard_charge_max"]);
      vm_compute; reflexivity.
  - apply (proj1 (@amountOf_first_nonzero RefHost.host ∅)).
    vm_compute. reflexivity.
Defined.

(** C8: for a code the Medicare table does not have, the ratio is "N/A",
    not "unknown". *)
Lemma missing_rate_is_NA_not_unknown :
  cmsRate Sample.service_mode !! "99999" = None
  /\ @formatPrice RefHost.host Sample.service_mode (Num (Finite 250)) (Str "99999")
     = {| price := "$250"; ratio := "N/A" |}
  /\ ratio (@formatPrice RefHost.host Sample.service_mode (Num (Finite 250))
              (Str "99999")) <> "unknown".
Proof.
  split; [vm_compute; reflexivity|].
  assert (@formatPrice RefHost.host Sample.service_mode (Num (Finite 250))
            (Str "99999") = {| price := "$250"; ratio := "N/A" |}) as E
    by (vm_compute; reflexivity).
  split; [exact E|]. rewrite E. discriminate.
Qed.

Lemma formatPrice_ratio_witness :
  ratio (@formatPrice RefHost.host Sample.service_mode (Num (Finite 250))
           (Str "70551")) = "2.50x"
  /\ ratio (@formatPrice RefHost.host Sample.service_mode (Num (Finite 250))
              (Str "")) = "N/A"
  /\ @formatPrice RefHost.host Sample.service_mode (Num (Finite 0)) (Str "70551")
     = {| price := "N/A"; ratio := "N/A" |}
  /\ price (@formatPrice RefHost.host Sample.service_mode (Str "0.00")
              (Str "70551")) = "$0".
Proof.
  pose proof (@formatPrice_ratio RefHost.host Sample.service_mode
                (Num (Finite 250)) (Str "70551")) as (_ & W & _).
  pose proof (@formatPrice_ratio RefHost.host Sample.service_mode
                (Num (Finite 250)) (Str "")) as (_ & W' & _).
  split; [|split; [|split]].
  - rewrite (proj2 (W eq_refl) (Finite 100)); vm_compute; reflexivity.
  - apply (proj1 (W' eq_refl)). left. reflexivity.
  - apply (proj1 (@formatPrice_ratio RefHost.host Sample.service_mode
                    (Num (Finite 0)) (Str "70551"))). reflexivity.
  - rewrite (proj2 (proj2 (proj2 (@formatPrice_ratio RefHost.host
                                    Sample.service_mode (Str "0.00")
                                    (Str "70551")))) "0.00");
      [vm_compute; reflexivity | discriminate].
Defined.

Lemma go_zip_normalized_witness :
  go_zip (Sample.custom_search "MRI") = "27710"
  /\ list_ascii_of_string
       (go_zip {| zip_value := " 501"; radius_value := "25"; service_value := "";
                  q_value := ""; payer_value := "" |})
     = list_ascii_of_string "00501"
  /\ list_ascii_of_string
       (go_zip {| zip_value := "27710-1234"; radius_value := "25";
                  service_value := ""; q_value := ""; payer_value := "" |})
     = list_ascii_of_string "-1234"
  /\ @go RefHost.host Sample.service_mode Sample.index
       {| zip_value := "27710-1234"; radius_value := "25";
          service_value := ""; q_value := ""; payer_value := "" |}
     = Abort "ZIP -1234 not found.".
Proof.
  split; [vm_compute; reflexivity|]. split; [|split].
  - rewrite (proj1 (proj2 (proj2 (@go_zip_normalized RefHost.host
                Sample.service_mode Sample.index _))));
      [vm_compute; reflexivity | vm_compute; lia].
  - rewrite (proj1 (proj2 (proj2 (proj2 (@go_zip_normalized RefHost.host
                Sample.service_mode Sample.index _)))));
      [vm_compute; reflexivity | vm_compute; lia].
  - set (c := {| zip_value := "27710-1234"; radius_value := "25";
                 service_value := ""; q_value := ""; payer_value := "" |}).
    change (Abort "ZIP -1234 not found.")
      with (Abort ("ZIP " +:+ go_zip c +:+ " not found.")).
    apply (proj2 (proj2 (proj2 (proj2 (proj2 (@go_zip_normalized RefHost.host
                Sample.service_mode Sample.index c)))))).
    vm_compute. reflexivity.
Defined.

Lemma code_field_for_display_and_ratio_witness :
  let other : record := <["rc_code" := Str "0999"]> Sample.mri_spine in
  getCodeField other = Str "72148"
  /\ @generatePriceTable RefHost.host Sample.revenue_mode other
     = @generatePriceTable RefHost.host Sample.service_mode Sample.mri_spine
  /\ getSearchCodeField Sample.revenue_mode = "rc_code".
Proof.
  cbv zeta.
  destruct (@code_field_for_display_and_ratio RefHost.host
              Sample.revenue_mode Sample.service_mode
              (<["rc_code" := Str "0999"]> Sample.mri_spine) Sample.mri_spine)
    as (_ & W2 & W3 & _ & W5).
  - reflexivity.
  - reflexivity.
  - intros f Hf. unfold get. now rewrite lookup_insert_ne.
  - split; [rewrite W2; vm_compute; reflexivity|]. split; [exact W3|].
    apply W5. discriminate.
Defined.

(** ** The further properties on the sample data *)

Lemma hits_ties_keep_file_order_witness :
  let later : record := <["description" := Str "CT head, repeat"]> Sample.ct_head in
  List.filter
    (fun r => Nle (@estimated_key RefHost.host r) (Finite 40)
              && Nle (Finite 40) (@estimated_key RefHost.host r))
    (@query_loaded RefHost.host Sample.service_mode
       [Sample.ct_head; Sample.mri_spine; later] "." None)
  = [Sample.ct_head; later].
Proof.
  cbv zeta.
  rewrite (proj2 (@hits_ties_keep_file_order RefHost.host (Finite 40))
             Sample.service_mode _ "." None
             (".", RefHost.RSeq RefHost.RAny RefHost.REmpty));
    [|vm_compute; reflexivity].
  vm_compute. reflexivity.
Defined.

Lemma hits_are_the_first_matches_witness :
  let hits := @query_loaded RefHost.host Sample.service_mode
                [Sample.mri_brain; Sample.mri_spine; Sample.ct_head] "."
                (Some "Cigna") in
  hits = [Sample.mri_spine]
  /\ forall r, In r hits -> get r "payer_name" = Str "Cigna".
Proof.
  cbv zeta. split; [vm_compute; reflexivity|].
  destruct (@hits_are_the_first_matches RefHost.host Sample.service_mode
              [Sample.mri_brain; Sample.mri_spine; Sample.ct_head] "."
              (Some "Cigna") (".", RefHost.RSeq RefHost.RAny RefHost.REmpty))
    as (_ & _ & W & _); [vm_compute; reflexivity|].
  intros r Hr. apply (W r "Cigna" Hr); [reflexivity | discriminate].
Defined.

Lemma nearby_grows_with_radius_witness :
  go_zip (Sample.search_within "5") = go_zip (Sample.search_within "25")
  /\ Nle (@go_miles RefHost.host (Sample.search_within "5"))
         (@go_miles RefHost.host (Sample.search_within "25")) = true
  /\ sublist [Sample.duke] [Sample.duke; Sample.duke_north].
Proof.
  assert (Nle (@go_miles RefHost.host (Sample.search_within "5"))
              (@go_miles RefHost.host (Sample.search_within "25")) = true)
    as Hle by (vm_compute; reflexivity).
  split; [reflexivity|]. split; [exact Hle|].
  apply (proj1 (@nearby_grows_with_radius RefHost.host Sample.service_mode
                  Sample.wide_index (Sample.search_within "5")
                  (Sample.search_within "25")) eq_refl Hle
           (lon Sample.duke, lat Sample.duke) [Sample.duke] "MRI" None
           (lon Sample.duke, lat Sample.duke)
           [Sample.duke; Sample.duke_north] "MRI" None);
    vm_compute; reflexivity.
Defined.

Lemma price_table_lines_witness :
  let r : record := {[ "description" := Str "Room and board";
                       "standard_charge_dollar" := Num (Finite 900);
                       "standard_charge_min" := Null ]} in
  @generatePriceTable RefHost.host Sample.service_mode r = NoPricingData.
Proof.
  cbv zeta.
  apply (proj1 (@price_table_lines RefHost.host Sample.service_mode _)).
  repeat split; vm_compute; reflexivity.
Defined.

Lemma histogram_counts_table_lines_witness :
  @createDistributionChart RefHost.host [Sample.mri_brain; Sample.mri_spine]
  = Histogram [Finite 100; Finite 5]
  /\ length (flat_map (@priceTypes RefHost.host Sample.service_mode)
               [Sample.mri_brain; Sample.mri_spine]) = 2.
Proof.
  assert (@createDistributionChart RefHost.host
            [Sample.mri_brain; Sample.mri_spine]
          = Histogram [Finite 100; Finite 5]) as Hc by (vm_compute; reflexivity).
  split; [exact Hc|].
  destruct (proj2 (proj2 (@histogram_counts_table_lines RefHost.host
                            Sample.service_mode _)) _ Hc) as (_ & W & _).
  now rewrite <- W.
Defined.

Lemma medicare_rates_loaded_witness :
  let a := {| currentConfigType := "service";
              cmsRate := @loadMedicareRates RefHost.host (Some Sample.cms_rows);
              unit_checked := true |} in
  ratio (@formatPrice RefHost.host a (Num (Finite 250)) (Str "70551")) = "2.50x"
  /\ ratio (@formatPrice RefHost.host a (Num (Finite 250)) (Str "72148")) = "N/A".
Proof.
  cbv zeta.
  pose proof (proj1 (proj2 (@medicare_rates_loaded RefHost.host
                              (Some Sample.cms_rows)))) as W.
  split.
  - rewrite (W _ [] {[ "code" := Num (Finite 70551); "price" := Num (Finite 100) ]}
               [ {[ "code" := Num (Finite 72148); "price" := Str "n/a" ]} ]
               (Num (Finite 250)) (Str "70551")).
    + vm_compute. reflexivity.
    + reflexivity.
    + intros r' [<- | []]. vm_compute. discriminate.
    + reflexivity.
    + vm_compute. reflexivity.
    + reflexivity.
    + reflexivity.
  - rewrite (W _ [ {[ "code" := Num (Finite 70551); "price" := Num (Finite 100) ]} ]
               {[ "code" := Num (Finite 72148); "price" := Str "n/a" ]} []
               (Num (Finite 250)) (Str "72148")).
    + vm_compute. reflexivity.
    + reflexivity.
    + intros r' [].
    + reflexivity.
    + vm_compute. reflexivity.
    + reflexivity.
    + reflexivity.
Defined.

Lemma zip_rows_found_by_go_witness :
  go_zip Sample.holtsville = "00501"
  /\ @loadZipData RefHost.host (Some Sample.zip_rows) !! go_zip Sample.holtsville
     = Some (Num (Finite (408 # 10)), Num (Finite (-73))).
Proof.
  split; [vm_compute; reflexivity|].
  rewrite (proj2 (proj2 (@zip_rows_found_by_go RefHost.host
                           (Some Sample.zip_rows)))
             [ {[ "zip" := Num (Finite 27710);
                  "lat" := Num (Finite (360071 # 10000));
                  "lon" := Num (Finite (-789382 # 10000)) ]} ]
             {[ "zip" := Num (Finite 501); "lat" := Num (Finite (408 # 10));
                "lon" := Num (Finite (-73)) ]} [] Sample.holtsville).
  - vm_compute. reflexivity.
  - reflexivity.
  - intros d' [].
  - vm_compute. reflexivity.
  - vm_compute. lia.
Defined.

Lemma cards_for_short_zip_witness :
  let ZIP := @loadZipData RefHost.host (Some Sample.zip_rows) in
  String.length (trim (zip_value Sample.holtsville)) < 5
  /\ @sortedHospitals RefHost.host ZIP (zip_value Sample.holtsville)
       [Sample.duke_north; Sample.duke]
     = [Sample.duke_north; Sample.duke]
  /\ @distanceText RefHost.host ZIP (zip_value Sample.holtsville) Sample.duke = ""
  /\ is_Some (ZIP !! go_zip Sample.holtsville).
Proof.
  cbv zeta.
  assert (String.length (trim (zip_value Sample.holtsville)) < 5) as Hlen
    by (vm_compute; lia).
  split; [exact Hlen|].
  destruct (@cards_for_short_zip RefHost.host (Some Sample.zip_rows)
              Sample.holtsville [Sample.duke_north; Sample.duke] Hlen)
    as (W1 & W2 & W3).
  split; [exact W1|]. split; [apply W2|].
  destruct (W3 [ {[ "zip" := Num (Finite 27710);
                    "lat" := Num (Finite (360071 # 10000));
                    "lon" := Num (Finite (-789382 # 10000)) ]} ]
               {[ "zip" := Num (Finite 501); "lat" := Num (Finite (408 # 10));
                  "lon" := Num (Finite (-73)) ]} []) as [W4 _].
  - reflexivity.
  - intros d' [].
  - vm_compute. reflexivity.
  - rewrite W4. eauto.
Defined.

Lemma cards_by_distance_witness :
  let ZIP := @loadZipData RefHost.host (Some Sample.zip_rows) in
  let center := (lon Sample.duke, lat Sample.duke) in
  @sortedHospitals RefHost.host ZIP "27710"
    [Sample.unplaced; Sample.duke_north; Sample.uncharted; Sample.duke]
  = [Sample.duke; Sample.duke_north; Sample.uncharted; Sample.unplaced]
  /\ Nle (@Nmul RefHost.host
            (@geoDistance RefHost.host center
               (lon Sample.duke_north, lat Sample.duke_north)) EARTH_MI)
         (@Nmul RefHost.host
            (@geoDistance RefHost.host center
               (lon Sample.uncharted, lat Sample.uncharted)) EARTH_MI)
     = true.
Proof.
  cbv zeta.
  assert (@sortedHospitals RefHost.host
            (@loadZipData RefHost.host (Some Sample.zip_rows)) "27710"
            [Sample.unplaced; Sample.duke_north; Sample.uncharted; Sample.duke]
          = [Sample.duke] ++ Sample.duke_north
              :: [] ++ Sample.uncharted :: [Sample.unplaced]) as Hcards
    by (vm_compute; reflexivity).
  split; [exact Hcards|].
  apply (proj1 (proj2 (@cards_by_distance RefHost.host
                         (@loadZipData RefHost.host (Some Sample.zip_rows))
                         "27710"
                         [Sample.unplaced; Sample.duke_north;
                          Sample.uncharted; Sample.duke]))
           (lat Sample.duke) (lon Sample.duke)
           ltac:(discriminate) ltac:(vm_compute; reflexivity)
           eq_refl eq_refl
           ltac:(intros h [<-|[<-|[<-|[<-|[]]]]] Hloc;
                 first [discriminate Hloc | vm_compute; discriminate])
           [Sample.duke] Sample.duke_north [] Sample.uncharted
           [Sample.unplaced] Hcards); reflexivity.
Defined.

Lemma service_config_all_or_nothing_witness :
  @loadServiceConfig RefHost.host (Some Sample.broken_entries) = ∅
  /\ is_Some (@loadServiceConfig RefHost.host (Some Sample.service_entries)
              !! "CT").
Proof.
  split.
  - apply (proj1 (@service_config_all_or_nothing RefHost.host
                    Sample.broken_entries)).
    apply List.Exists_cons_tl, List.Exists_cons_hd.
    intros o [= <-]. vm_compute. reflexivity.
  - destruct (proj1 (proj2 (@service_config_all_or_nothing RefHost.host
                              Sample.service_entries))) as [W _].
    + repeat constructor; eexists _, _; (split; [reflexivity|]);
        vm_compute; reflexivity.
    + apply W. right. now left.
Defined.


Lemma pool_serves_each_hospital_once_witness :
  let st := {| next_index := 5; awaited := []; stored := [1; 0; 3; 4; 2] |} in
  pool_run 5 pool_start
    [Take; Take; Take; Take; Settle 1; Settle 0; Take; Settle 1; Settle 1;
     Settle 0]
  = Some st
  /\ pool_step 5 {| next_index := 4; awaited := [0; 1; 2; 3]; stored := [] |}
       Take = None
  /\ pool_done 5 st
  /\ forall i, In i (stored st) <-> i < 5.
Proof.
  cbv zeta.
  assert (pool_run 5 pool_start
            [Take; Take; Take; Take; Settle 1; Settle 0; Take; Settle 1;
             Settle 1; Settle 0]
          = Some {| next_index := 5; awaited := [];
                    stored := [1; 0; 3; 4; 2] |}) as Hrun
    by (vm_compute; reflexivity).
  assert (pool_done 5 {| next_index := 5; awaited := [];
                         stored := [1; 0; 3; 4; 2] |}) as Hdone
    by (split; [reflexivity | cbn; lia]).
  split; [exact Hrun|]. split; [reflexivity|]. split; [exact Hdone|].
  destruct (pool_serves_each_hospital_once 5 _ _ Hrun) as (_ & _ & _ & W & _).
  now destruct (W Hdone) as (_ & _ & W3).
Defined.

Lemma parses_backed_by_fetches_witness :
  let es := [Call (Some Sample.path); Call (Some Sample.path); Call (Some "");
             Respond Sample.path (HttpResponse true Sample.chargemaster_text);
             Respond Sample.path NetworkError] in
  exists t,
    @run RefHost.host (idle empty_session) es = Some t
    /\ count_occ string_dec (fetchLog (sess t)) Sample.path = 2
    /\ count_occ string_dec (parseLog (sess t)) Sample.path <= 2
    /\ count_occ string_dec (fetchLog (sess t)) "" = 0
    /\ (forall jsonData,
          jsonCache (sess t) !! Sample.path = Some jsonData ->
          jsonData
          = @parse_json_lines RefHost.host Sample.chargemaster_text).
Proof.
  cbv zeta.
  destruct (@run RefHost.host (idle empty_session)
              [Call (Some Sample.path); Call (Some Sample.path);
               Call (Some "");
               Respond Sample.path
                 (HttpResponse true Sample.chargemaster_text);
               Respond Sample.path NetworkError]) as [t|] eqn:E;
    [|vm_compute in E; discriminate].
  exists t. split; [reflexivity|].
  pose proof (@parses_backed_by_fetches RefHost.host _ t E Sample.path)
    as (W1 & W2 & _).
  pose proof (@parses_backed_by_fetches RefHost.host _ t E "") as (_ & _ & W3).
  assert (count_occ string_dec (fetchLog (sess t)) Sample.path = 2) as Hf.
  { vm_compute in E. injection E as <-. vm_compute. reflexivity. }
  split; [exact Hf|]. split; [lia|]. split; [now apply W3|].
  intros jsonData Hl. destruct (W2 jsonData Hl) as (_ & text & Hin & ->).
  destruct Hin as [[=] | [[=] | [[=] | [[= <-] | [[=] | []]]]]].
  reflexivity.
Defined.

Lemma payer_scan_warms_cache_witness :
  let scanned := (@getUniquePayers RefHost.host Sample.net empty_session
                    [Sample.unplaced; Sample.duke]).1 in
  is_Some (jsonCache scanned !! Sample.path)
  /\ (@worker_hits RefHost.host Sample.service_mode Sample.offline scanned
        "MRI" None Sample.duke).1 = scanned.
Proof.
  cbv zeta.
  destruct (@payer_scan_warms_cache RefHost.host Sample.net empty_session
              [Sample.unplaced; Sample.duke] Sample.duke) as [W1 W2].
  - right. now left.
  - discriminate.
  - intros k. exists Sample.chargemaster_text. reflexivity.
  - split; [exact W1 | apply W2].
Defined.

Lemma payers_of_one_file_witness :
  @collect_payers ∅
    [Sample.mri_spine; Sample.numbered_payer; Sample.mri_brain]
  = @collect_payers ∅ [Sample.mri_spine]
  /\ "Aetna" ∈ @collect_payers ∅ [Sample.mri_spine; Sample.mri_brain].
Proof.
  split.
  - apply (proj2 (proj2 (proj2 (@payers_of_one_file ∅ _)))
             [Sample.mri_spine] Sample.numbered_payer [Sample.mri_brain]);
      reflexivity.
  - apply (proj1 (proj2 (proj2 (@payers_of_one_file ∅
                                  [Sample.mri_spine; Sample.mri_brain])))
             ltac:(intros r [<- | [<- | []]]; reflexivity)
             Sample.mri_brain " Aetna ").
    + right. now left.
    + reflexivity.
    + vm_compute. discriminate.
Defined.

Lemma payer_list_sorted_and_trimmed_witness :
  let payers := (@getUniquePayers RefHost.host Sample.net empty_session
                   [Sample.duke]).2 in
  payers = ["Aetna"; "Cigna"]
  /\ trim "Aetna" = "Aetna".
Proof.
  cbv zeta.
  assert ((@getUniquePayers RefHost.host Sample.net empty_session
             [Sample.duke]).2 = ["Aetna"; "Cigna"]) as Hp
    by (vm_compute; reflexivity).
  split; [exact Hp|].
  pose proof (@payer_list_sorted_and_trimmed RefHost.host Sample.net
                empty_session [Sample.duke]) as W.
  cbv zeta in W. destruct W as (_ & _ & W).
  apply (W "Aetna"). rewrite Hp. now left.
Defined.

Lemma cache_keyed_by_path_as_written_witness :
  let first := @loadHospitalJSON RefHost.host Sample.net empty_session
                 (Some "docs/data/nc/duke.json") in
  let second := @loadHospitalJSON RefHost.host Sample.net first.1
                  (Some "data/nc/duke.json") in
  jsonUrl "docs/data/nc/duke.json" = jsonUrl "data/nc/duke.json"
  /\ fetchLog second.1 = ["docs/data/nc/duke.json"; "data/nc/duke.json"].
Proof.
  pose proof (@cache_keyed_by_path_as_written RefHost.host Sample.net
                empty_session "data/nc/duke.json" Sample.chargemaster_text)
    as W.
  cbv zeta in W |- *.
  destruct W as (W1 & _ & W3);
    [discriminate | reflexivity | reflexivity | reflexivity | reflexivity |].
  split; [exact W1 | exact W3].
Defined.

Lemma records_follow_lines_witness :
  @parse_json_lines RefHost.host (join_lines Sample.three_lines)
  = [Sample.ct_head; Sample.mri_spine].
Proof.
  destruct (@records_follow_lines RefHost.host Sample.three_lines) as [W _].
  - discriminate.
  - repeat constructor.
  - vm_compute. reflexivity.
  - rewrite W. vm_compute. reflexivity.
Defined.

